(** * libdnf::repo: the librepo adapter (libdnf/repo/librepo.cpp)

    A shallow embedding of the percent-encoder [url_encode], the credential
    joiner [format_user_pass_string], the move assignment of the two owning
    wrappers and the remote configurator [init_remote], with the properties
    the specification states about them.

    Conventions.
    - A [std::string] is a [string] of 8-bit [ascii] characters.
    - [int] values are [Z]; narrowing casts are written out.
    - [float] is IEEE 754 binary32, as [spec_float] with 24 bits of
      precision and exponent bound 128, rounding to nearest-even.
    - The LC_CTYPE locale of the process, which [isalnum] consults, is a
      variable of the development: [locale] says which bytes from 0x80 on
      it takes for letters or digits. *)

From Stdlib Require Import ZArith Bool List String Ascii Lia.
From Stdlib Require Import Floats.SpecFloat.
Import ListNotations.

Local Open Scope string_scope.
Local Open Scope Z_scope.

(** ** Characters *)

(** [static_cast<unsigned char>(ch)] *)
Definition uchar (ch : ascii) : Z := Z.of_N (N_of_ascii ch).

(** [static_cast<char>(hex)] for an [int] *)
Definition to_char (hex : Z) : ascii := ascii_of_N (Z.to_N (hex mod 256)).

(** Two locales: "C", where no byte from 0x80 on is a letter or a digit,
    and ISO-8859-1 with its accented letters (byte 0xFF left out: as a
    signed [char] it is -1, which [isalnum] reads as EOF). *)
Definition C_locale : ascii -> bool := fun _ => false.

Definition latin1 : ascii -> bool :=
  fun ch =>
    let c := uchar ch in
    ((192 <=? c) && (c <=? 254) && negb (c =? 215) && negb (c =? 247))
    || (c =? 170) || (c =? 181) || (c =? 186).

Section Locale.

(** The locale in force when the code runs. *)
Variable locale : ascii -> bool.

(** [isalnum] of <cctype>, a function of the C library, called on a plain
    [char].  On the ASCII range it is non-zero exactly on the digits and
    letters, in every locale.  A byte from 0x80 on reaches it as a
    negative [int] where [char] is signed, which the C standard leaves
    open; the answer is then what the library finds in the tables of the
    locale, and nothing is assumed about it: it is [locale ch]. *)
Definition isalnum (ch : ascii) : Z :=
  let c := uchar ch in
  if c <? 128 then
    if ((48 <=? c) && (c <=? 57)) || ((65 <=? c) && (c <=? 90))
       || ((97 <=? c) && (c <=? 122))
    then 1 else 0
  else if locale ch then 1 else 0.

(** ** url_encode (librepo.cpp:47-77) *)

(** The lambda [no_encode]. *)
Definition no_encode (ch : ascii) : bool :=
  negb (isalnum ch =? 0) || Ascii.eqb ch "-" || Ascii.eqb ch "."
  || Ascii.eqb ch "_" || Ascii.eqb ch "~".

(** [encoded.push_back(ch)] *)
Definition push_back (s : string) (ch : ascii) : string :=
  s ++ String ch EmptyString.

(** [hex += hex <= 9 ? '0' : 'a' - 10] *)
Definition hex_adjust (hex : Z) : Z :=
  hex + (if hex <=? 9 then uchar "0" else uchar "a" - 10).

(** First loop: the length to reserve. *)
Fixpoint url_encode_len (src : string) (len : nat) : nat :=
  match src with
  | EmptyString => len
  | String ch rest =>
      url_encode_len rest (if negb (no_encode ch) then len + 2 else len)%nat
  end.

(** Second loop: the body run on one character. *)
Definition url_encode_step (encoded : string) (ch : ascii) : string :=
  if no_encode ch then push_back encoded ch
  else
    let encoded := push_back encoded "%" in
    let hex := Z.shiftr (uchar ch) 4 in
    let hex := hex_adjust hex in
    let encoded := push_back encoded (to_char hex) in
    let hex := Z.land (uchar ch) 15 in
    let hex := hex_adjust hex in
    push_back encoded (to_char hex).

Fixpoint url_encode_loop (src : string) (encoded : string) : string :=
  match src with
  | EmptyString => encoded
  | String ch rest => url_encode_loop rest (url_encode_step encoded ch)
  end.

(** [reserve] sets the capacity of [encoded], not its content. *)
Definition reserve (encoded : string) (len : nat) : string := encoded.

Definition url_encode (src : string) : string :=
  let len := url_encode_len src (String.length src) in
  let encoded := reserve EmptyString len in
  url_encode_loop src encoded.

(** ** format_user_pass_string (librepo.cpp:86-92) *)

Definition format_user_pass_string (user passwd : string) (encode : bool)
  : string :=
  if encode then url_encode user ++ ":" ++ url_encode passwd
  else user ++ ":" ++ passwd.

(** ** The specification's vocabulary for the encoder *)

(** The unreserved characters, listed. *)
Definition unreserved_chars : string :=
  "ABCDEFGHIJKLMNOPQRSTUVWXYZabcdefghijklmnopqrstuvwxyz0123456789-._~".

Fixpoint mem_char (ch : ascii) (s : string) : bool :=
  match s with
  | EmptyString => false
  | String c rest => Ascii.eqb ch c || mem_char ch rest
  end.

Definition unreserved (ch : ascii) : bool := mem_char ch unreserved_chars.

(** The sixteen lower-case hexadecimal digits. *)
Definition lower_hex_digit (n : Z) : ascii :=
  match String.get (Z.to_nat n) "0123456789abcdef" with
  | Some c => c
  | None => "?"%char
  end.

(** What one byte contributes to the output, in the specification's words. *)
Definition percent_escape (ch : ascii) : string :=
  String "%" (String (lower_hex_digit (uchar ch / 16))
             (String (lower_hex_digit (uchar ch mod 16)) EmptyString)).

Definition emit (ch : ascii) : string :=
  if unreserved ch then String ch EmptyString else percent_escape ch.

Fixpoint concat_emit (s : string) : string :=
  match s with
  | EmptyString => EmptyString
  | String ch rest => emit ch ++ concat_emit rest
  end.

Fixpoint count_unreserved (s : string) : nat :=
  match s with
  | EmptyString => 0%nat
  | String ch rest =>
      ((if unreserved ch then 1 else 0) + count_unreserved rest)%nat
  end.

Fixpoint count_other (s : string) : nat :=
  match s with
  | EmptyString => 0%nat
  | String ch rest =>
      ((if unreserved ch then 0 else 1) + count_other rest)%nat
  end.

(** Reading one encoded unit back: the inverse used for injectivity. *)
Definition hex_value (c : ascii) : Z :=
  let v := uchar c in
  if v <=? 57 then v - 48 else v - 87.

Fixpoint url_decode (s : string) : string :=
  match s with
  | EmptyString => EmptyString
  | String c rest =>
      if Ascii.eqb c "%" then
        match rest with
        | String h (String l rest') =>
            String (to_char (16 * hex_value h + hex_value l)) (url_decode rest')
        | _ => String c rest
        end
      else String c (url_decode rest)
  end.

(** ** Single-precision arithmetic

    The operators the configurator applies to [float] values, and the
    conversions between [float] and the integer types. *)

Definition float := spec_float.

Definition fmul : float -> float -> float := SFmul 24 128.
Definition flt : float -> float -> bool := SFltb.
Definition fle : float -> float -> bool := SFleb.
Definition fgt (x y : float) : bool := SFltb y x.
Definition fne (x y : float) : bool := negb (SFeqb x y).

(** [static_cast<float>(n)] for an integer [n], and the implicit conversion
    of the literals [0] and [1]. *)
Definition float_of_int (n : Z) : float := binary_normalize 24 128 n 0 false.

(** The integer part of a finite [float], fraction dropped. *)
Definition ftrunc (x : float) : option Z :=
  match x with
  | S754_zero _ => Some 0
  | S754_finite s m e => Some (cond_Zopp s (Z.shiftl (Zpos m) e))
  | S754_infinity _ | S754_nan => None
  end.

(** [static_cast<int64_t>(x)] for a [float]: defined when the truncated
    value fits, undefined otherwise. *)
Definition int64_of_float (x : float) : option Z :=
  match ftrunc x with
  | Some n => if (- 2 ^ 63 <=? n) && (n <? 2 ^ 63) then Some n else None
  | None => None
  end.

(** [static_cast<int64_t>(n)] and the conversion to [long] for an integer. *)
Definition int64_of_int (n : Z) : Z := (n + 2 ^ 63) mod 2 ^ 64 - 2 ^ 63.
Definition long_of_int (n : Z) : Z := int64_of_int n.

(** ** The engine's vocabulary (librepo) *)

Inductive LrHandleOption :=
| LRO_USERAGENT | LRO_LOWSPEEDLIMIT | LRO_MAXSPEED
| LRO_CONNECTTIMEOUT | LRO_LOWSPEEDTIME | LRO_IPRESOLVE | LRO_USERPWD
| LRO_SSLCACERT | LRO_SSLCLIENTCERT | LRO_SSLCLIENTKEY
| LRO_SSLVERIFYHOST | LRO_SSLVERIFYPEER
| LRO_PROXY | LRO_PROXYAUTHMETHODS | LRO_PROXYUSERPWD
| LRO_PROXY_SSLCACERT | LRO_PROXY_SSLCLIENTCERT | LRO_PROXY_SSLCLIENTKEY
| LRO_PROXY_SSLVERIFYHOST | LRO_PROXY_SSLVERIFYPEER.

Inductive LrAuth :=
| LR_AUTH_NONE | LR_AUTH_BASIC | LR_AUTH_DIGEST | LR_AUTH_NEGOTIATE
| LR_AUTH_NTLM | LR_AUTH_DIGEST_IE | LR_AUTH_NTLM_WB | LR_AUTH_ANY.

Inductive LrIpResolveType := LR_IPRESOLVE_V4 | LR_IPRESOLVE_V6.

(** The value handed to the engine with an option, by its C++ type. *)
Inductive LrValue :=
| LrString (s : string)            (* const char *, from c_str()        *)
| LrInt64 (n : Z)                  (* int64_t                           *)
| LrLong (n : Z)                   (* long                              *)
| LrIpResolve (t : LrIpResolveType)
| LrAuthLong (code : LrAuth).      (* static_cast<long>(code)           *)

Definition LrHandleOption_eqb (a b : LrHandleOption) : bool :=
  match a, b with
  | LRO_USERAGENT, LRO_USERAGENT | LRO_LOWSPEEDLIMIT, LRO_LOWSPEEDLIMIT
  | LRO_MAXSPEED, LRO_MAXSPEED | LRO_CONNECTTIMEOUT, LRO_CONNECTTIMEOUT
  | LRO_LOWSPEEDTIME, LRO_LOWSPEEDTIME | LRO_IPRESOLVE, LRO_IPRESOLVE
  | LRO_USERPWD, LRO_USERPWD | LRO_SSLCACERT, LRO_SSLCACERT
  | LRO_SSLCLIENTCERT, LRO_SSLCLIENTCERT | LRO_SSLCLIENTKEY, LRO_SSLCLIENTKEY
  | LRO_SSLVERIFYHOST, LRO_SSLVERIFYHOST | LRO_SSLVERIFYPEER, LRO_SSLVERIFYPEER
  | LRO_PROXY, LRO_PROXY | LRO_PROXYAUTHMETHODS, LRO_PROXYAUTHMETHODS
  | LRO_PROXYUSERPWD, LRO_PROXYUSERPWD
  | LRO_PROXY_SSLCACERT, LRO_PROXY_SSLCACERT
  | LRO_PROXY_SSLCLIENTCERT, LRO_PROXY_SSLCLIENTCERT
  | LRO_PROXY_SSLCLIENTKEY, LRO_PROXY_SSLCLIENTKEY
  | LRO_PROXY_SSLVERIFYHOST, LRO_PROXY_SSLVERIFYHOST
  | LRO_PROXY_SSLVERIFYPEER, LRO_PROXY_SSLVERIFYPEER => true
  | _, _ => false
  end.

(** An engine session ([LrHandle]), seen through the options it holds, in
    the order they were set. *)
Definition LrHandle := list (LrHandleOption * LrValue).

(** The options of one kind a session holds, oldest first. *)
Definition settings (opt : LrHandleOption) (h : LrHandle) : list LrValue :=
  map snd (filter (fun ov => LrHandleOption_eqb (fst ov) opt) h).

(** The value in force for an option: the one set last. *)
Definition get_opt (opt : LrHandleOption) (h : LrHandle) : option LrValue :=
  last (map Some (settings opt h)) None.

(** ** The configuration view

    The fields [init_remote] reads.  [ConfigMain] and [ConfigRepo] are
    declared outside librepo.cpp; both offer these accessors.  [minrate],
    [bandwidth] and [timeout] are unsigned integers, [throttle] a [float];
    [proxy] and [proxy_username] may be unset ([empty()] holds), which is
    [None] here. *)
Record Config := {
  user_agent : string;
  minrate : Z;
  throttle : float;
  bandwidth : Z;
  timeout : Z;
  ip_resolve : string;
  username : string;
  password : string;
  sslcacert : string;
  sslclientcert : string;
  sslclientkey : string;
  sslverify : bool;
  proxy : option string;
  proxy_auth_method : string;
  proxy_username : option string;
  proxy_password : string;
  proxy_sslcacert : string;
  proxy_sslclientcert : string;
  proxy_sslclientkey : string;
  proxy_sslverify : bool
}.

(** [std::string::empty()] *)
Definition empty (s : string) : bool :=
  match s with EmptyString => true | String _ _ => false end.

(** ** PROXYAUTHMETHODS (librepo.cpp:29-40) *)

Definition PROXYAUTHMETHODS : list (string * LrAuth) :=
  [ ("none", LR_AUTH_NONE);
    ("basic", LR_AUTH_BASIC);
    ("digest", LR_AUTH_DIGEST);
    ("negotiate", LR_AUTH_NEGOTIATE);
    ("ntlm", LR_AUTH_NTLM);
    ("digest_ie", LR_AUTH_DIGEST_IE);
    ("ntlm_wb", LR_AUTH_NTLM_WB);
    ("any", LR_AUTH_ANY) ].

(** The loop of librepo.cpp:170-175: the first entry whose name matches
    replaces the initial value, then [break]. *)
Fixpoint scan_auth (table : list (string * LrAuth)) (str : string)
                   (proxy_auth_method : LrAuth) : LrAuth :=
  match table with
  | [] => proxy_auth_method
  | (name, code) :: rest =>
      if String.eqb str name then code
      else scan_auth rest str proxy_auth_method
  end.

(** ** Runs that may throw

    A run transforms the session and ends by returning, by throwing, or in
    undefined behaviour; what was set before a [throw] stays set. *)

Inductive exception :=
| RepoDownloadError (msg : string)
| LibrepoError.

Inductive outcome (A : Type) :=
| Returned (a : A)
| Threw (e : exception)
| Undefined.
#[global] Arguments Returned {A} a.
#[global] Arguments Threw {A} e.
#[global] Arguments Undefined {A}.

Definition run (A : Type) := LrHandle -> LrHandle * outcome A.

Definition ret {A} (a : A) : run A := fun h => (h, Returned a).

Definition bind {A B} (c : run A) (k : A -> run B) : run B :=
  fun h =>
    match c h with
    | (h', Returned a) => k a h'
    | (h', Threw e) => (h', Threw e)
    | (h', Undefined) => (h', Undefined)
    end.

Definition throw {A} (e : exception) : run A := fun h => (h, Threw e).

(** A conversion that is defined only on part of its domain. *)
Definition defined {A} (o : option A) : run A :=
  fun h => match o with Some a => (h, Returned a) | None => (h, Undefined) end.

Definition when (b : bool) (c : run unit) : run unit :=
  if b then c else ret tt.

Declare Scope run_scope.
Delimit Scope run_scope with run.
Notation "x <- c ;; k" := (bind c (fun x => k))
  (at level 61, c at next level, right associativity) : run_scope.
Notation "c ;; k" := (bind c (fun _ => k))
  (at level 61, right associativity) : run_scope.

(** ** init_remote (librepo.cpp:112-198) *)

(** The local [maxspeed] after librepo.cpp:117-120. *)
Definition maxspeed (config : Config) : float :=
  let maxspeed := throttle config in
  if fgt maxspeed (float_of_int 0) && fle maxspeed (float_of_int 1)
  then fmul maxspeed (float_of_int (bandwidth config))
  else maxspeed.

(** The condition of librepo.cpp:121. *)
Definition maxspeed_below_minrate (config : Config) : bool :=
  fne (maxspeed config) (float_of_int 0)
  && flt (maxspeed config) (float_of_int (minrate config)).

Definition speed_message : string :=
  "Maximum download speed is lower than minimum, please change configuration of minrate or throttle".

Section Engine.

(** The engine's option setter, [lr_handle_setopt]: whether it accepts
    the option on the session as it stands.  librepo is an external
    library; nothing is assumed about its verdicts. *)
Variable lr_handle_setopt : LrHandle -> LrHandleOption -> LrValue -> bool.

(** Modelled from the spec: [LibrepoHandle::set_opt] is declared in
    librepo.hpp.  It forwards to the engine's option setter and fails
    with the engine's error when the engine reports one. *)
Definition set_opt (opt : LrHandleOption) (value : LrValue) : run unit :=
  fun h =>
    if lr_handle_setopt h opt value
    then ((h ++ [(opt, value)])%list, Returned tt)
    else (h, Threw LibrepoError).

Local Open Scope run_scope.

Definition init_remote (config : Config) : run unit :=
  set_opt LRO_USERAGENT (LrString (user_agent config)) ;;

  when (maxspeed_below_minrate config)
       (throw (RepoDownloadError speed_message)) ;;
  set_opt LRO_LOWSPEEDLIMIT (LrInt64 (int64_of_int (minrate config))) ;;
  speed <- defined (int64_of_float (maxspeed config)) ;;
  set_opt LRO_MAXSPEED (LrInt64 speed) ;;

  let timeout := long_of_int (timeout config) in
  when (0 <? timeout)
       (set_opt LRO_CONNECTTIMEOUT (LrLong timeout) ;;
        set_opt LRO_LOWSPEEDTIME (LrLong timeout)) ;;

  (if String.eqb (ip_resolve config) "ipv4" then
     set_opt LRO_IPRESOLVE (LrIpResolve LR_IPRESOLVE_V4)
   else if String.eqb (ip_resolve config) "ipv6" then
     set_opt LRO_IPRESOLVE (LrIpResolve LR_IPRESOLVE_V6)
   else ret tt) ;;

  let userpwd := username config in
  when (negb (empty userpwd))
       (let userpwd :=
          format_user_pass_string userpwd (password config) false in
        set_opt LRO_USERPWD (LrString userpwd)) ;;

  when (negb (empty (sslcacert config)))
       (set_opt LRO_SSLCACERT (LrString (sslcacert config))) ;;
  when (negb (empty (sslclientcert config)))
       (set_opt LRO_SSLCLIENTCERT (LrString (sslclientcert config))) ;;
  when (negb (empty (sslclientkey config)))
       (set_opt LRO_SSLCLIENTKEY (LrString (sslclientkey config))) ;;
  let sslverify := if sslverify config then 1 else 0 in
  set_opt LRO_SSLVERIFYHOST (LrLong sslverify) ;;
  set_opt LRO_SSLVERIFYPEER (LrLong sslverify) ;;

  match proxy config with
  | Some url => when (negb (empty url)) (set_opt LRO_PROXY (LrString url))
  | None => ret tt
  end ;;

  let proxy_auth_method_str := proxy_auth_method config in
  let proxy_auth_method :=
    scan_auth PROXYAUTHMETHODS proxy_auth_method_str LR_AUTH_ANY in
  set_opt LRO_PROXYAUTHMETHODS (LrAuthLong proxy_auth_method) ;;

  match proxy_username config with
  | Some userpwd =>
      when (negb (empty userpwd))
           (let userpwd :=
              format_user_pass_string userpwd (proxy_password config) true in
            set_opt LRO_PROXYUSERPWD (LrString userpwd))
  | None => ret tt
  end ;;

  when (negb (empty (proxy_sslcacert config)))
       (set_opt LRO_PROXY_SSLCACERT (LrString (proxy_sslcacert config))) ;;
  when (negb (empty (proxy_sslclientcert config)))
       (set_opt LRO_PROXY_SSLCLIENTCERT
                (LrString (proxy_sslclientcert config))) ;;
  when (negb (empty (proxy_sslclientkey config)))
       (set_opt LRO_PROXY_SSLCLIENTKEY
                (LrString (proxy_sslclientkey config))) ;;
  let proxy_sslverify := if proxy_sslverify config then 1 else 0 in
  set_opt LRO_PROXY_SSLVERIFYHOST (LrLong proxy_sslverify) ;;
  set_opt LRO_PROXY_SSLVERIFYPEER (LrLong proxy_sslverify).

End Engine.

(** An engine that accepts whatever it is given. *)
Definition accepting : LrHandle -> LrHandleOption -> LrValue -> bool :=
  fun _ _ _ => true.

(** The options a run that returns has handed to the engine, in order,
    [speed] being the integer the max-speed option received. *)
Definition opt_if (b : bool) (l : LrHandle) : LrHandle := if b then l else [].

Definition options_of (config : Config) (speed : Z) : LrHandle :=
  ([ (LRO_USERAGENT, LrString (user_agent config));
     (LRO_LOWSPEEDLIMIT, LrInt64 (int64_of_int (minrate config)));
     (LRO_MAXSPEED, LrInt64 speed) ]
   ++ opt_if (0 <? long_of_int (timeout config))
        [ (LRO_CONNECTTIMEOUT, LrLong (long_of_int (timeout config)));
          (LRO_LOWSPEEDTIME, LrLong (long_of_int (timeout config))) ]
   ++ (if String.eqb (ip_resolve config) "ipv4"
       then [ (LRO_IPRESOLVE, LrIpResolve LR_IPRESOLVE_V4) ]
       else if String.eqb (ip_resolve config) "ipv6"
       then [ (LRO_IPRESOLVE, LrIpResolve LR_IPRESOLVE_V6) ]
       else [])
   ++ opt_if (negb (empty (username config)))
        [ (LRO_USERPWD,
           LrString (format_user_pass_string (username config)
                                             (password config) false)) ]
   ++ opt_if (negb (empty (sslcacert config)))
        [ (LRO_SSLCACERT, LrString (sslcacert config)) ]
   ++ opt_if (negb (empty (sslclientcert config)))
        [ (LRO_SSLCLIENTCERT, LrString (sslclientcert config)) ]
   ++ opt_if (negb (empty (sslclientkey config)))
        [ (LRO_SSLCLIENTKEY, LrString (sslclientkey config)) ]
   ++ [ (LRO_SSLVERIFYHOST, LrLong (if sslverify config then 1 else 0));
        (LRO_SSLVERIFYPEER, LrLong (if sslverify config then 1 else 0)) ]
   ++ match proxy config with
      | Some url => opt_if (negb (empty url)) [ (LRO_PROXY, LrString url) ]
      | None => []
      end
   ++ [ (LRO_PROXYAUTHMETHODS,
         LrAuthLong (scan_auth PROXYAUTHMETHODS (proxy_auth_method config)
                               LR_AUTH_ANY)) ]
   ++ match proxy_username config with
      | Some user =>
          opt_if (negb (empty user))
            [ (LRO_PROXYUSERPWD,
               LrString (format_user_pass_string user (proxy_password config)
                                                 true)) ]
      | None => []
      end
   ++ opt_if (negb (empty (proxy_sslcacert config)))
        [ (LRO_PROXY_SSLCACERT, LrString (proxy_sslcacert config)) ]
   ++ opt_if (negb (empty (proxy_sslclientcert config)))
        [ (LRO_PROXY_SSLCLIENTCERT, LrString (proxy_sslclientcert config)) ]
   ++ opt_if (negb (empty (proxy_sslclientkey config)))
        [ (LRO_PROXY_SSLCLIENTKEY, LrString (proxy_sslclientkey config)) ]
   ++ [ (LRO_PROXY_SSLVERIFYHOST,
         LrLong (if proxy_sslverify config then 1 else 0));
        (LRO_PROXY_SSLVERIFYPEER,
         LrLong (if proxy_sslverify config then 1 else 0)) ])%list.

(** Two judgements on runs: a property of the session that every step
    keeps, whatever the outcome; and the absence of [RepoDownloadError]. *)
Definition preserves {A} (c : run A) (I : LrHandle -> Prop) : Prop :=
  forall h, I h -> I (fst (c h)).

Definition quiet {A} (c : run A) : Prop :=
  forall h msg, snd (c h) <> Threw (RepoDownloadError msg).

(** Between [h0] and [h'] the option [opt] received only values that
    satisfy [Q], added after the ones it held. *)
Definition only_adds (opt : LrHandleOption) (Q : LrValue -> Prop)
                     (h0 h' : LrHandle) : Prop :=
  exists extra,
    settings opt h' = (settings opt h0 ++ extra)%list /\ Forall Q extra.

(** ** The specification's vocabulary for the configurator *)

(** The eight tokens of the closed enumeration. *)
Definition ProxyAuthMethod_name (m : LrAuth) : string :=
  match m with
  | LR_AUTH_NONE => "none"
  | LR_AUTH_BASIC => "basic"
  | LR_AUTH_DIGEST => "digest"
  | LR_AUTH_NEGOTIATE => "negotiate"
  | LR_AUTH_NTLM => "ntlm"
  | LR_AUTH_DIGEST_IE => "digest_ie"
  | LR_AUTH_NTLM_WB => "ntlm_wb"
  | LR_AUTH_ANY => "any"
  end.

(** How often a character occurs in a string. *)
Fixpoint count_char (ch : ascii) (s : string) : nat :=
  match s with
  | EmptyString => 0%nat
  | String c rest =>
      ((if Ascii.eqb ch c then 1 else 0) + count_char ch rest)%nat
  end.

(** Sample configurations: [minrate = 1000], [throttle = 0.5] and
    [bandwidth = 500] give [maxspeed = 250], below [minrate]; with
    [minrate = 100] the same speeds pass. *)
Definition half : float := S754_finite false 8388608 (-24).

Definition slow_config : Config :=
  {| user_agent := "libdnf"; minrate := 1000; throttle := half;
     bandwidth := 500; timeout := 30; ip_resolve := "ipv4";
     username := "alice"; password := "p@ss";
     sslcacert := ""; sslclientcert := ""; sslclientkey := "";
     sslverify := true;
     proxy := Some "http://proxy:3128"; proxy_auth_method := "kerberos";
     proxy_username := Some "bob"; proxy_password := "x:y";
     proxy_sslcacert := ""; proxy_sslclientcert := "";
     proxy_sslclientkey := ""; proxy_sslverify := false |}.

Definition good_config : Config :=
  {| user_agent := "libdnf"; minrate := 100; throttle := half;
     bandwidth := 500; timeout := 30; ip_resolve := "ipv4";
     username := "alice"; password := "p@ss";
     sslcacert := ""; sslclientcert := ""; sslclientkey := "";
     sslverify := true;
     proxy := Some "http://proxy:3128"; proxy_auth_method := "kerberos";
     proxy_username := Some "bob"; proxy_password := "x:y";
     proxy_sslcacert := ""; proxy_sslclientcert := "";
     proxy_sslclientkey := ""; proxy_sslverify := false |}.

(** [minrate] is 2^24 + 1, which single precision rounds to 2^24, and
    [throttle] is 2^24 bytes per second. *)
Definition rounding_config : Config :=
  {| user_agent := "libdnf"; minrate := 16777217;
     throttle := S754_finite false 8388608 1;
     bandwidth := 500; timeout := 30; ip_resolve := "ipv4";
     username := "alice"; password := "p@ss";
     sslcacert := ""; sslclientcert := ""; sslclientkey := "";
     sslverify := true;
     proxy := Some "http://proxy:3128"; proxy_auth_method := "kerberos";
     proxy_username := Some "bob"; proxy_password := "x:y";
     proxy_sslcacert := ""; proxy_sslclientcert := "";
     proxy_sslclientkey := ""; proxy_sslverify := false |}.

(** [throttle = 0]: no limit. *)
Definition unthrottled_config : Config :=
  {| user_agent := "libdnf"; minrate := 1000; throttle := S754_zero false;
     bandwidth := 500; timeout := 0; ip_resolve := "auto";
     username := ""; password := "";
     sslcacert := ""; sslclientcert := ""; sslclientkey := "";
     sslverify := true;
     proxy := None; proxy_auth_method := "basic";
     proxy_username := None; proxy_password := "";
     proxy_sslcacert := ""; proxy_sslclientcert := "";
     proxy_sslclientkey := ""; proxy_sslverify := true |}.

(** [throttle = 0.5] of [bandwidth = 3]: [maxspeed = 1.5]. *)
Definition fractional_config : Config :=
  {| user_agent := "libdnf"; minrate := 0; throttle := half;
     bandwidth := 3; timeout := 0; ip_resolve := "ipv6";
     username := ""; password := "";
     sslcacert := ""; sslclientcert := ""; sslclientkey := "";
     sslverify := true;
     proxy := None; proxy_auth_method := "ntlm";
     proxy_username := None; proxy_password := "";
     proxy_sslcacert := ""; proxy_sslclientcert := "";
     proxy_sslclientkey := ""; proxy_sslverify := true |}.

(** ** The owning wrappers (librepo.cpp:94-110)

    [LibrepoResult] and [LibrepoHandle] each hold one engine pointer.
    Objects live at addresses; an rvalue reference is the address of the
    object it refers to, so [this] and [&other] may be the same address. *)

Definition address := nat.

(** An engine pointer; [nullptr] is [None]. *)
Definition pointer := option nat.
Definition nullptr : pointer := None.

(** Calls into the engine's release functions. *)
Inductive engine_call :=
| lr_result_free (p : pointer)
| lr_handle_free (p : pointer).

Record memory := {
  result : address -> pointer;      (* LibrepoResult::result, per object *)
  handle : address -> pointer;      (* LibrepoHandle::handle, per object *)
  calls : list engine_call          (* release calls made so far         *)
}.

Definition assign (field : address -> pointer) (a : address) (p : pointer)
  : address -> pointer :=
  fun x => if Nat.eqb x a then p else field x.

(** [LibrepoResult::operator=(LibrepoResult && other)]; the reference it
    returns is the address [this]. *)
Definition LibrepoResult_move_assign (this other : address) (m : memory)
  : address * memory :=
  let m :=
    if negb (Nat.eqb this other) then
      let m := {| result := result m; handle := handle m;
                  calls := calls m ++ [lr_result_free (result m this)] |} in
      let m := {| result := assign (result m) this (result m other);
                  handle := handle m; calls := calls m |} in
      {| result := assign (result m) other nullptr;
         handle := handle m; calls := calls m |}
    else m in
  (this, m).

(** [LibrepoHandle::operator=(LibrepoHandle && other)] *)
Definition LibrepoHandle_move_assign (this other : address) (m : memory)
  : address * memory :=
  let m :=
    if negb (Nat.eqb this other) then
      let m := {| result := result m; handle := handle m;
                  calls := calls m ++ [lr_handle_free (handle m this)] |} in
      let m := {| result := result m;
                  handle := assign (handle m) this (handle m other);
                  calls := calls m |} in
      {| result := result m;
         handle := assign (handle m) other nullptr; calls := calls m |}
    else m in
  (this, m).

(** ** Vocabulary for the further properties *)

(** The bytes the encoder lets through: the unreserved ones, and from
    0x80 on those the locale takes for letters or digits. *)
Definition kept (ch : ascii) : bool :=
  unreserved ch || ((128 <=? uchar ch) && locale ch).

(** What one byte contributes to the output, by the code's own test. *)
Definition encode_byte (ch : ascii) : string :=
  if no_encode ch then String ch EmptyString else percent_escape ch.

Fixpoint concat_bytes (s : string) : string :=
  match s with
  | EmptyString => EmptyString
  | String ch rest => encode_byte ch ++ concat_bytes rest
  end.

(** The number of bytes of a string that are not let through. *)
Fixpoint count_escaped (s : string) : nat :=
  match s with
  | EmptyString => 0%nat
  | String ch rest =>
      ((if kept ch then 0 else 1) + count_escaped rest)%nat
  end.

(** A byte from 0x80 on. *)
Definition e_acute : ascii := ascii_of_N 233.

(** A well-formed encoder output: bytes that are let through, and '%'
    only as the head of an escape with two lower-case hexadecimal
    digits. *)
Definition is_lower_hex (c : ascii) : bool := mem_char c "0123456789abcdef".

Fixpoint well_escaped (s : string) : bool :=
  match s with
  | EmptyString => true
  | String c rest =>
      if Ascii.eqb c "%" then
        match rest with
        | String h (String l rest') =>
            is_lower_hex h && is_lower_hex l && well_escaped rest'
        | _ => false
        end
      else kept c && well_escaped rest
  end.

(** Handing a list of options to the engine one after the other, as
    [set_opt] does: the session grows by the accepted ones, and the first
    refusal stops the sequence ([false]). *)
Fixpoint feed (engine : LrHandle -> LrHandleOption -> LrValue -> bool)
              (h : LrHandle) (l : LrHandle) : LrHandle * bool :=
  match l with
  | [] => (h, true)
  | (opt, value) :: rest =>
      if engine h opt value then feed engine (h ++ [(opt, value)])%list rest
      else (h, false)
  end.

(** [feed], then [k] when nothing was refused and the engine's error
    otherwise. *)
Definition feed_then {B}
           (engine : LrHandle -> LrHandleOption -> LrValue -> bool)
           (l : LrHandle) (k : run B) : run B :=
  fun h =>
    match feed engine h l with
    | (h', true) => k h'
    | (h', false) => (h', Threw LibrepoError)
    end.

(** The values an optional path or URL contributes: none when empty. *)
Definition if_given (field : string) : list LrValue :=
  if empty field then [] else [LrString field].

(** A statement that does nothing but hand the options [l] to the engine. *)
Definition feeds (engine : LrHandle -> LrHandleOption -> LrValue -> bool)
           (c : run unit) (l : LrHandle) : Prop :=
  forall (B : Type) (k : unit -> run B) h,
    bind c k h = feed_then engine l (k tt) h.

(** Ownership of engine pointers by the wrappers: no pointer is held by
    two objects, and no object holds a pointer that was released. *)
Definition exclusive (field : address -> pointer) : Prop :=
  forall a b p, field a = Some p -> field b = Some p -> a = b.

Definition results_sound (m : memory) : Prop :=
  exclusive (result m)
  /\ forall a p, result m a = Some p ->
                 ~ In (lr_result_free (Some p)) (calls m).

Definition handles_sound (m : memory) : Prop :=
  exclusive (handle m)
  /\ forall a p, handle m a = Some p ->
                 ~ In (lr_handle_free (Some p)) (calls m).

(** A memory with two results and two handles. *)
Definition sample_memory : memory :=
  {| result := fun a => match a with
                        | 0%nat => Some 10%nat
                        | 1%nat => Some 11%nat
                        | _ => nullptr
                        end;
     handle := fun a => match a with
                        | 2%nat => Some 20%nat
                        | 3%nat => Some 21%nat
                        | _ => nullptr
                        end;
     calls := [] |}.

(** An engine that refuses the proxy options. *)
Definition refusing : LrHandle -> LrHandleOption -> LrValue -> bool :=
  fun _ _ _ => false.

Definition no_proxy_engine : LrHandle -> LrHandleOption -> LrValue -> bool :=
  fun _ opt _ =>
    match opt with
    | LRO_PROXY | LRO_PROXYAUTHMETHODS | LRO_PROXYUSERPWD => false
    | _ => true
    end.

(** [throttle] not a number, negative, and a fraction of no bandwidth. *)
Definition with_throttle (t : float) (bw : Z) (config : Config) : Config :=
  {| user_agent := user_agent config; minrate := minrate config;
     throttle := t; bandwidth := bw; timeout := timeout config;
     ip_resolve := ip_resolve config;
     username := username config; password := password config;
     sslcacert := sslcacert config; sslclientcert := sslclientcert config;
     sslclientkey := sslclientkey config; sslverify := sslverify config;
     proxy := proxy config; proxy_auth_method := proxy_auth_method config;
     proxy_username := proxy_username config;
     proxy_password := proxy_password config;
     proxy_sslcacert := proxy_sslcacert config;
     proxy_sslclientcert := proxy_sslclientcert config;
     proxy_sslclientkey := proxy_sslclientkey config;
     proxy_sslverify := proxy_sslverify config |}.

(** * Properties of the encoder *)

Section StringFacts.

Lemma append_assoc (a b c : string) : (a ++ b) ++ c = a ++ (b ++ c).
Proof. induction a as [|x a IH]; cbn; [reflexivity | now rewrite IH]. Qed.

Lemma append_empty_r (a : string) : a ++ "" = a.
Proof. induction a as [|x a IH]; cbn; [reflexivity | now rewrite IH]. Qed.

Lemma length_append (a b : string) :
  String.length (a ++ b) = (String.length a + String.length b)%nat.
Proof. induction a as [|x a IH]; cbn; [reflexivity | now rewrite IH]. Qed.

Lemma mem_char_append ch (a b : string) :
  mem_char ch (a ++ b) = mem_char ch a || mem_char ch b.
Proof.
  induction a as [|x a IH]; cbn; [reflexivity|].
  now rewrite IH, orb_assoc.
Qed.

Lemma count_char_append ch (a b : string) :
  count_char ch (a ++ b) = (count_char ch a + count_char ch b)%nat.
Proof.
  induction a as [|x a IH]; cbn [append count_char]; [reflexivity|].
  rewrite IH. lia.
Qed.

Lemma count_char_absent ch (s : string) :
  mem_char ch s = false -> count_char ch s = 0%nat.
Proof.
  induction s as [|x s IH]; cbn [mem_char count_char]; [reflexivity|].
  destruct (Ascii.eqb ch x); cbn [orb]; [discriminate|].
  intros H. now rewrite IH.
Qed.

End StringFacts.

Lemma all_ascii (P : ascii -> Prop) :
  (forall b0 b1 b2 b3 b4 b5 b6 b7, P (Ascii b0 b1 b2 b3 b4 b5 b6 b7)) ->
  forall ch, P ch.
Proof. intros H []; apply H. Qed.

Ltac each_ascii ch :=
  revert ch; apply all_ascii;
  intros [] [] [] [] [] [] [] [].

(** The test of the code, in any locale: the listed set on the ASCII
    range, the locale's letters and digits beyond. *)
Lemma no_encode_kept ch : no_encode ch = kept ch.
Proof.
  each_ascii ch; unfold no_encode, isalnum, kept;
    try destruct (locale _); reflexivity.
Qed.

Lemma no_encode_percent : no_encode "%" = false.
Proof. reflexivity. Qed.

Lemma no_encode_colon : no_encode ":" = false.
Proof. reflexivity. Qed.

(** The arithmetic on [hex] yields the two lower-case digits. *)
Lemma escape_digits ch :
  String "%" (String (to_char (hex_adjust (Z.shiftr (uchar ch) 4)))
             (String (to_char (hex_adjust (Z.land (uchar ch) 15))) ""))
  = percent_escape ch.
Proof. each_ascii ch; reflexivity. Qed.

Lemma step_byte ch encoded :
  url_encode_step encoded ch = encoded ++ encode_byte ch.
Proof.
  unfold url_encode_step, encode_byte.
  destruct (no_encode ch); [reflexivity|].
  unfold push_back. rewrite !append_assoc. cbn [append].
  now rewrite escape_digits.
Qed.

Lemma loop_bytes src : forall encoded,
  url_encode_loop src encoded = encoded ++ concat_bytes src.
Proof.
  induction src as [|ch rest IH]; intros encoded;
    cbn [url_encode_loop concat_bytes].
  - now rewrite append_empty_r.
  - now rewrite IH, step_byte, append_assoc.
Qed.

Lemma url_encode_bytes src : url_encode src = concat_bytes src.
Proof. unfold url_encode, reserve. cbv zeta. now rewrite loop_bytes. Qed.

Lemma url_encode_cons ch rest :
  url_encode (String ch rest) = encode_byte ch ++ url_encode rest.
Proof. now rewrite !url_encode_bytes. Qed.

Lemma length_encode_byte ch :
  String.length (encode_byte ch) = if kept ch then 1%nat else 3%nat.
Proof.
  unfold encode_byte. rewrite no_encode_kept. now destruct (kept ch).
Qed.

Lemma length_url_encode s :
  String.length (url_encode s) = (String.length s + 2 * count_escaped s)%nat.
Proof.
  rewrite url_encode_bytes.
  induction s as [|ch rest IH];
    cbn [concat_bytes count_escaped String.length]; [reflexivity|].
  rewrite length_append, length_encode_byte, IH.
  destruct (kept ch); lia.
Qed.

(** The length computed by the first loop is the length of the result. *)
Lemma url_encode_len_spec src : forall len,
  url_encode_len src len = (len + 2 * count_escaped src)%nat.
Proof.
  induction src as [|ch rest IH]; intros len;
    cbn [url_encode_len count_escaped].
  - lia.
  - rewrite IH, no_encode_kept. destruct (kept ch); cbn [negb]; lia.
Qed.

(** X4. The capacity reserved from the first loop is exactly the length
    of the encoded string: the second loop never outgrows it. *)
Lemma url_encode_reserved_exact src :
  url_encode_len src (String.length src) = String.length (url_encode src).
Proof. now rewrite url_encode_len_spec, length_url_encode. Qed.

(** Decoding undoes an escape, and leaves alone a byte that was let
    through. *)
Lemma url_decode_escape ch rest :
  url_decode (percent_escape ch ++ rest) = String ch (url_decode rest).
Proof. each_ascii ch; reflexivity. Qed.

Lemma url_decode_byte ch rest :
  url_decode (encode_byte ch ++ rest) = String ch (url_decode rest).
Proof.
  unfold encode_byte. destruct (no_encode ch) eqn:E.
  - cbn [append url_decode].
    destruct (Ascii.eqb_spec ch "%") as [->|_]; [|reflexivity].
    rewrite no_encode_percent in E. discriminate E.
  - apply url_decode_escape.
Qed.

Lemma url_decode_encode s : url_decode (url_encode s) = s.
Proof.
  induction s as [|ch rest IH]; [reflexivity|].
  now rewrite url_encode_cons, url_decode_byte, IH.
Qed.

(** No unit of the output contains the separator. *)
Lemma escape_no_colon ch : mem_char ":" (percent_escape ch) = false.
Proof. each_ascii ch; reflexivity. Qed.

Lemma encode_byte_no_colon ch : mem_char ":" (encode_byte ch) = false.
Proof.
  unfold encode_byte. destruct (no_encode ch) eqn:E.
  - cbn [mem_char]. rewrite orb_false_r.
    destruct (Ascii.eqb_spec ":" ch) as [<-|_]; [|reflexivity].
    rewrite no_encode_colon in E. discriminate E.
  - apply escape_no_colon.
Qed.

Lemma url_encode_no_colon s : mem_char ":" (url_encode s) = false.
Proof.
  rewrite url_encode_bytes.
  induction s as [|ch rest IH]; [reflexivity|].
  cbn [concat_bytes]. now rewrite mem_char_append, encode_byte_no_colon, IH.
Qed.

(** The counts of the specification. *)
Lemma length_emit ch :
  String.length (emit ch) = if unreserved ch then 1%nat else 3%nat.
Proof. unfold emit. now destruct (unreserved ch). Qed.

Lemma length_concat_emit s :
  String.length (concat_emit s) = (count_unreserved s + 3 * count_other s)%nat.
Proof.
  induction s as [|ch rest IH]; cbn [concat_emit count_unreserved count_other].
  - reflexivity.
  - rewrite length_append, length_emit, IH.
    destruct (unreserved ch); lia.
Qed.

Lemma count_total s :
  (count_unreserved s + count_other s)%nat = String.length s.
Proof.
  induction s as [|ch rest IH];
    cbn [count_unreserved count_other String.length]; [reflexivity|].
  destruct (unreserved ch); lia.
Qed.

Lemma concat_emit_unreserved s :
  count_other s = 0%nat -> concat_emit s = s.
Proof.
  induction s as [|ch rest IH]; cbn [count_other concat_emit]; [reflexivity|].
  unfold emit. destruct (unreserved ch); [|discriminate].
  cbn. intros H. now rewrite IH.
Qed.

Lemma high_byte_reserved ch :
  (128 <=? uchar ch) = true -> unreserved ch = false.
Proof.
  assert (B : (128 <=? uchar ch) && unreserved ch = false)
    by (each_ascii ch; reflexivity).
  intros H. now rewrite H in B.
Qed.

(** ** Claims on the encoder and the joiner *)

Section Documented.

(** A locale without letters or digits from 0x80 on, as "C" is. *)
Hypothesis ascii_only : forall ch, locale ch = false.

Lemma no_encode_unreserved ch : no_encode ch = unreserved ch.
Proof.
  rewrite no_encode_kept. unfold kept.
  now rewrite ascii_only, andb_false_r, orb_false_r.
Qed.

Lemma concat_bytes_emit s : concat_bytes s = concat_emit s.
Proof.
  induction s as [|ch rest IH]; [reflexivity|].
  cbn [concat_bytes concat_emit]. unfold encode_byte, emit.
  now rewrite no_encode_unreserved, IH.
Qed.

(** X24. Where the locale has no letters or digits from 0x80 on,
    [url_encode] is as its comment says: every unreserved byte (A-Z, a-z,
    0-9, '-', '.', '_', '~') is kept and every other byte becomes '%' and
    the two lower-case hexadecimal digits of its unsigned value; the
    output has [count_unreserved s + 3 * count_other s] bytes, and a
    string of unreserved bytes only is returned as it is. *)
Theorem url_encode_documented (s : string) :
  url_encode s = concat_emit s
  /\ String.length (url_encode s)
     = (count_unreserved s + 3 * count_other s)%nat
  /\ (count_other s = 0%nat -> url_encode s = s).
Proof.
  assert (E : url_encode s = concat_emit s)
    by now rewrite url_encode_bytes, concat_bytes_emit.
  split; [exact E|]. split.
  - rewrite E. apply length_concat_emit.
  - intros H. rewrite E. now apply concat_emit_unreserved.
Qed.

End Documented.

(** C3. The code departs from the claim where the locale has letters
    beyond ASCII: such a byte is not unreserved, yet [isalnum] holds of it
    and [url_encode] hands it back as it is, one byte instead of the three
    of an escape. *)
Theorem url_encode_locale_letter (ch : ascii) :
  (128 <=? uchar ch) = true -> locale ch = true ->
  unreserved ch = false
  /\ url_encode (String ch EmptyString) = String ch EmptyString
  /\ url_encode (String ch EmptyString) <> emit ch
  /\ String.length (url_encode (String ch EmptyString)) = 1%nat
  /\ (count_unreserved (String ch EmptyString)
      + 3 * count_other (String ch EmptyString))%nat = 3%nat.
Proof.
  intros Hh Hl. pose proof (high_byte_reserved ch Hh) as U.
  assert (E : url_encode (String ch EmptyString) = String ch EmptyString).
  { rewrite url_encode_bytes. cbn [concat_bytes]. unfold encode_byte.
    rewrite no_encode_kept. unfold kept. now rewrite U, Hh, Hl. }
  split; [exact U|]. split; [exact E|]. split; [|split].
  - rewrite E. unfold emit. rewrite U. discriminate.
  - now rewrite E.
  - cbn [count_unreserved count_other]. now rewrite U.
Qed.

(** C7. [format_user_pass_string] returns the user component, one ':' and
    the password component; with [encode] both components are
    percent-encoded first, and the separator is the only ':' of the
    result, since an encoded component contains none. *)
Theorem format_user_pass_string_correct (user passwd : string) :
  format_user_pass_string user passwd false = user ++ String ":" passwd
  /\ format_user_pass_string user passwd true
     = url_encode user ++ String ":" (url_encode passwd)
  /\ String.get (String.length (url_encode user))
                (format_user_pass_string user passwd true) = Some ":"%char
  /\ String.get (String.length user)
                (format_user_pass_string user passwd false) = Some ":"%char
  /\ count_char ":" (format_user_pass_string user passwd true) = 1%nat.
Proof.
  assert (G : forall a b, String.get (String.length a) (a ++ String ":" b)
                          = Some ":"%char).
  { intros a b. induction a as [|x a IH]; [reflexivity | exact IH]. }
  unfold format_user_pass_string. cbn [append].
  repeat split; try apply G.
  rewrite count_char_append. cbn [count_char].
  rewrite !count_char_absent by apply url_encode_no_colon.
  reflexivity.
Qed.

(** C8. [url_encode] is injective. *)
Theorem url_encode_injective (s1 s2 : string) :
  url_encode s1 = url_encode s2 -> s1 = s2.
Proof.
  intros H.
  rewrite <- (url_decode_encode s1), <- (url_decode_encode s2).
  now rewrite H.
Qed.

(** * Properties of the configurator *)

Local Open Scope list_scope.

Section Runs.

Variable engine : LrHandle -> LrHandleOption -> LrValue -> bool.

Lemma settings_app opt (h1 h2 : LrHandle) :
  settings opt (h1 ++ h2) = (settings opt h1 ++ settings opt h2)%list.
Proof. unfold settings. now rewrite filter_app, map_app. Qed.

Lemma settings_opt_if opt b l :
  settings opt (opt_if b l) = if b then settings opt l else [].
Proof. now destruct b. Qed.

Lemma get_opt_last opt (h : LrHandle) v :
  get_opt opt (h ++ [(opt, v)]) = Some v.
Proof.
  unfold get_opt. rewrite settings_app, map_app.
  replace (settings opt [(opt, v)]) with [v]
    by (unfold settings; cbn; now destruct opt).
  cbn [map]. apply last_last.
Qed.

Lemma get_opt_settings opt (h : LrHandle) l v :
  settings opt h = (l ++ [v])%list -> get_opt opt h = Some v.
Proof.
  unfold get_opt. intros ->. rewrite map_app. cbn [map]. apply last_last.
Qed.

(** *** Runs that return *)

Lemma set_opt_Returned opt v h h' u :
  set_opt engine opt v h = (h', Returned u) -> h' = (h ++ [(opt, v)])%list.
Proof.
  unfold set_opt. destruct (engine h opt v); intros H; now inversion H.
Qed.

Lemma bind_set_opt_Returned {B} opt v (k : unit -> run B) h h' b :
  bind (set_opt engine opt v) k h = (h', Returned b) ->
  k tt (h ++ [(opt, v)])%list = (h', Returned b).
Proof.
  unfold bind, set_opt. destruct (engine h opt v); [auto | discriminate].
Qed.

Lemma bind_when_throw_Returned {B} c e (k : unit -> run B) h h' b :
  bind (when c (throw e)) k h = (h', Returned b) ->
  c = false /\ k tt h = (h', Returned b).
Proof. destruct c; cbn; [discriminate | auto]. Qed.

Lemma bind_ret {A B} (a : A) (k : A -> run B) h : bind (ret a) k h = k a h.
Proof. reflexivity. Qed.

Lemma bind_defined_Some {A B} (a : A) (k : A -> run B) h :
  bind (defined (Some a)) k h = k a h.
Proof. reflexivity. Qed.

Lemma bind_defined_Returned {A B} (o : option A) (k : A -> run B) h h' b :
  bind (defined o) k h = (h', Returned b) ->
  exists a, o = Some a /\ k a h = (h', Returned b).
Proof. destruct o as [a|]; cbn; [eauto | discriminate]. Qed.

Lemma bind_when_set_opt_Returned {B} c opt v (k : unit -> run B) h h' b :
  bind (when c (set_opt engine opt v)) k h = (h', Returned b) ->
  k tt (h ++ opt_if c [(opt, v)])%list = (h', Returned b).
Proof.
  destruct c; cbn [when opt_if].
  - apply bind_set_opt_Returned.
  - rewrite app_nil_r. auto.
Qed.

Lemma bind_when_set_opt2_Returned {B} c o1 v1 o2 v2 (k : unit -> run B)
      h h' b :
  bind (when c (bind (set_opt engine o1 v1)
                     (fun _ => set_opt engine o2 v2))) k h
  = (h', Returned b) ->
  k tt (h ++ opt_if c [(o1, v1); (o2, v2)])%list = (h', Returned b).
Proof.
  destruct c; cbn [when opt_if].
  - unfold bind, set_opt.
    destruct (engine h o1 v1); [|discriminate].
    destruct (engine _ o2 v2); [|discriminate].
    now rewrite <- app_assoc.
  - rewrite app_nil_r. auto.
Qed.

Lemma bind_choice_Returned {B} (c1 c2 : bool) opt v1 v2 (k : unit -> run B)
      h h' b :
  bind (if c1 then set_opt engine opt v1
        else if c2 then set_opt engine opt v2 else ret tt) k h
  = (h', Returned b) ->
  k tt (h ++ (if c1 then [(opt, v1)]
              else if c2 then [(opt, v2)] else nil))%list
  = (h', Returned b).
Proof.
  destruct c1; [apply bind_set_opt_Returned|].
  destruct c2; [apply bind_set_opt_Returned|].
  rewrite app_nil_r. auto.
Qed.

Lemma bind_optional_Returned {B} (field : option string) opt
      (value : string -> LrValue) (k : unit -> run B) h h' b :
  bind match field with
       | Some s => when (negb (empty s)) (set_opt engine opt (value s))
       | None => ret tt
       end k h = (h', Returned b) ->
  k tt (h ++ match field with
             | Some s => opt_if (negb (empty s)) [(opt, value s)]
             | None => nil
             end)%list = (h', Returned b).
Proof.
  destruct field as [s|]; [apply bind_when_set_opt_Returned|].
  rewrite app_nil_r. auto.
Qed.

(** A run of [init_remote] that returns passed the speed check, converted
    [maxspeed] to an integer and handed the engine [options_of]. *)
Lemma init_remote_Returned config h h' :
  init_remote engine config h = (h', Returned tt) ->
  maxspeed_below_minrate config = false
  /\ exists speed,
       int64_of_float (maxspeed config) = Some speed
       /\ h' = (h ++ options_of config speed)%list.
Proof.
  unfold init_remote. cbv zeta. intros H.
  apply bind_set_opt_Returned in H.
  apply bind_when_throw_Returned in H. destruct H as [Hcheck H].
  split; [exact Hcheck|].
  apply bind_set_opt_Returned in H.
  apply bind_defined_Returned in H. destruct H as (speed & Hspeed & H).
  exists speed. split; [exact Hspeed|].
  apply bind_set_opt_Returned in H.
  apply bind_when_set_opt2_Returned in H.
  apply bind_choice_Returned in H.
  do 4 apply bind_when_set_opt_Returned in H.
  do 2 apply bind_set_opt_Returned in H.
  apply (bind_optional_Returned (proxy config) LRO_PROXY LrString) in H.
  apply bind_set_opt_Returned in H.
  apply (bind_optional_Returned (proxy_username config) LRO_PROXYUSERPWD
           (fun user => LrString (format_user_pass_string
                                    user (proxy_password config) true))) in H.
  do 3 apply bind_when_set_opt_Returned in H.
  apply bind_set_opt_Returned in H.
  apply set_opt_Returned in H.
  subst h'. unfold options_of.
  repeat rewrite <- app_assoc. reflexivity.
Qed.

End Runs.

(** *** What any run may add, whatever its outcome *)

Section Invariants.

Variable engine : LrHandle -> LrHandleOption -> LrValue -> bool.

Lemma preserves_bind {A B} (c : run A) (k : A -> run B) I :
  preserves c I -> (forall a, preserves (k a) I) -> preserves (bind c k) I.
Proof.
  intros Hc Hk h Hh. specialize (Hc h Hh). unfold bind.
  destruct (c h) as [h1 [a| |]]; cbn in *; auto.
  now apply Hk.
Qed.

Lemma preserves_ret {A} (a : A) I : preserves (ret a) I.
Proof. now intros h Hh. Qed.

Lemma preserves_throw {A} e I : preserves (@throw A e) I.
Proof. now intros h Hh. Qed.

Lemma preserves_defined {A} (o : option A) I : preserves (defined o) I.
Proof. intros h Hh. now destruct o. Qed.

Lemma preserves_when b c I :
  (b = true -> preserves c I) -> preserves (when b c) I.
Proof. destruct b; cbn; [auto | intros _; apply preserves_ret]. Qed.

Lemma preserves_set_opt opt v (I : LrHandle -> Prop) :
  (forall h, I h -> I (h ++ [(opt, v)])) -> preserves (set_opt engine opt v) I.
Proof.
  intros H h Hh. unfold set_opt. destruct (engine h opt v); cbn; auto.
Qed.

Lemma LrHandleOption_eqb_eq a b : LrHandleOption_eqb a b = true -> a = b.
Proof. destruct a, b; cbn; congruence. Qed.

Lemma LrHandleOption_eqb_refl a : LrHandleOption_eqb a a = true.
Proof. now destruct a. Qed.

Lemma settings_snoc opt (h : LrHandle) o v :
  settings opt (h ++ [(o, v)])
  = settings opt h ++ (if LrHandleOption_eqb o opt then [v] else []).
Proof.
  rewrite settings_app. f_equal. unfold settings. cbn.
  now destruct (LrHandleOption_eqb o opt).
Qed.

Lemma only_adds_refl opt Q h : only_adds opt Q h h.
Proof. exists []. now rewrite app_nil_r. Qed.

Lemma only_adds_step opt (Q : LrValue -> Prop) h0 o v :
  (o = opt -> Q v) ->
  forall h, only_adds opt Q h0 h -> only_adds opt Q h0 (h ++ [(o, v)]).
Proof.
  intros HQ h (extra & E & F). unfold only_adds. rewrite settings_snoc, E.
  destruct (LrHandleOption_eqb o opt) eqn:Eo.
  - exists (extra ++ [v]). rewrite app_assoc. split; [reflexivity|].
    apply Forall_app. split; [exact F|].
    constructor; [|constructor]. apply HQ. now apply LrHandleOption_eqb_eq.
  - exists extra. now rewrite app_nil_r.
Qed.

Ltac in_options :=
  unfold options_of;
  repeat match goal with
         | E : ?c = _ |- context [?c] => rewrite E
         end;
  cbn [opt_if];
  repeat (apply in_or_app; first [left; cbn; tauto | right]);
  cbn; tauto.

Ltac walk_run :=
  repeat first
    [ apply preserves_bind; [|intros ?]
    | apply preserves_when; intros ?
    | apply preserves_ret
    | apply preserves_throw
    | apply preserves_defined
    | match goal with
      | |- preserves (if ?c then _ else _) _ => destruct c eqn:?
      | |- preserves (match ?o with Some _ => _ | None => _ end) _ =>
          destruct o eqn:?
      end ].

(** Every value a run adds to an option is one [options_of] lists for it,
    for some [speed]; nothing is assumed about the outcome. *)
Lemma init_remote_only_adds opt (Q : LrValue -> Prop) config h :
  (forall speed v, In (opt, v) (options_of config speed) -> Q v) ->
  only_adds opt Q h (fst (init_remote engine config h)).
Proof.
  intros HQ.
  assert (P : preserves (init_remote engine config) (only_adds opt Q h)).
  2: { apply P, only_adds_refl. }
  unfold init_remote. cbv zeta.
  assert (leaf : forall o v,
             (exists speed, In (o, v) (options_of config speed)) ->
             preserves (set_opt engine o v) (only_adds opt Q h)).
  { intros o v (speed & Hin). apply preserves_set_opt, only_adds_step.
    intros ->. exact (HQ speed v Hin). }
  walk_run;
    try (apply leaf;
         first [ exists 0; in_options
               | match goal with a : Z |- _ => exists a; in_options end ]).
Qed.

End Invariants.

(** *** Where [RepoDownloadError] can come from *)

Section Quiet.

Variable engine : LrHandle -> LrHandleOption -> LrValue -> bool.

Lemma quiet_bind {A B} (c : run A) (k : A -> run B) :
  quiet c -> (forall a, quiet (k a)) -> quiet (bind c k).
Proof.
  intros Hc Hk h msg. specialize (Hc h msg). unfold bind.
  destruct (c h) as [h1 [a|e|]]; cbn in *.
  - apply Hk.
  - intros H. apply Hc. now inversion H.
  - intros H. discriminate H.
Qed.

Lemma quiet_ret {A} (a : A) : quiet (ret a).
Proof. intros h msg. cbn. discriminate. Qed.

Lemma quiet_defined {A} (o : option A) : quiet (defined o).
Proof. intros h msg. destruct o; cbn; discriminate. Qed.

Lemma quiet_set_opt opt v : quiet (set_opt engine opt v).
Proof.
  intros h msg. unfold set_opt. destruct (engine h opt v); cbn; discriminate.
Qed.

Lemma quiet_when b c : quiet c -> quiet (when b c).
Proof. destruct b; cbn; [auto | intros _; apply quiet_ret]. Qed.

Ltac walk_quiet :=
  repeat first
    [ apply quiet_bind; [|intros ?]
    | apply quiet_when
    | apply quiet_ret
    | apply quiet_defined
    | apply quiet_set_opt
    | match goal with
      | |- quiet (if ?c then _ else _) => destruct c
      | |- quiet (match ?o with Some _ => _ | None => _ end) => destruct o
      end ].

(** [RepoDownloadError] is thrown by the speed check and nowhere else,
    with the user-agent option as the only one set by then. *)
Lemma init_remote_RepoDownloadError config h h' msg :
  init_remote engine config h = (h', Threw (RepoDownloadError msg)) ->
  maxspeed_below_minrate config = true
  /\ h' = h ++ [(LRO_USERAGENT, LrString (user_agent config))].
Proof.
  unfold init_remote. cbv zeta.
  unfold bind at 1, set_opt at 1.
  destruct (engine h LRO_USERAGENT _); [|discriminate].
  destruct (maxspeed_below_minrate config).
  - cbn. intros H. inversion H. auto.
  - cbn [when]. rewrite bind_ret. intros H. exfalso.
    apply (f_equal snd) in H. cbn [snd] in H. revert H.
    match goal with
    | |- snd (?c ?h1) = _ -> False => assert (Q : quiet c)
    end.
    { walk_quiet. }
    apply Q.
Qed.

(** The speed check, run: with the user-agent option taken, the engine's
    verdicts beyond it do not matter. *)
Lemma init_remote_rejected config h :
  maxspeed_below_minrate config = true ->
  init_remote engine config h
  = if engine h LRO_USERAGENT (LrString (user_agent config))
    then (h ++ [(LRO_USERAGENT, LrString (user_agent config))],
          Threw (RepoDownloadError speed_message))
    else (h, Threw LibrepoError).
Proof.
  intros E. unfold init_remote. cbv zeta.
  unfold bind at 1, set_opt at 1.
  destruct (engine h LRO_USERAGENT _); [|reflexivity].
  rewrite E. reflexivity.
Qed.

End Quiet.

(** *** Runs against an engine that accepts everything *)

Section Accepting.

Lemma bind_set_opt_accepting {B} opt v (k : unit -> run B) h :
  bind (set_opt accepting opt v) k h = k tt (h ++ [(opt, v)]).
Proof. reflexivity. Qed.

Lemma bind_when_set_opt_accepting {B} c opt v (k : unit -> run B) h :
  bind (when c (set_opt accepting opt v)) k h
  = k tt (h ++ opt_if c [(opt, v)]).
Proof. destruct c; cbn; [reflexivity | now rewrite app_nil_r]. Qed.

Lemma bind_when_set_opt2_accepting {B} c o1 v1 o2 v2 (k : unit -> run B) h :
  bind (when c (bind (set_opt accepting o1 v1)
                     (fun _ => set_opt accepting o2 v2))) k h
  = k tt (h ++ opt_if c [(o1, v1); (o2, v2)]).
Proof.
  destruct c; cbn; [now rewrite <- app_assoc | now rewrite app_nil_r].
Qed.

Lemma bind_choice_accepting {B} (c1 c2 : bool) opt v1 v2
      (k : unit -> run B) h :
  bind (if c1 then set_opt accepting opt v1
        else if c2 then set_opt accepting opt v2 else ret tt) k h
  = k tt (h ++ (if c1 then [(opt, v1)]
                else if c2 then [(opt, v2)] else nil)).
Proof. destruct c1, c2; cbn; now rewrite ?app_nil_r. Qed.

Lemma bind_optional_accepting {B} (field : option string) opt
      (value : string -> LrValue) (k : unit -> run B) h :
  bind match field with
       | Some s => when (negb (empty s)) (set_opt accepting opt (value s))
       | None => ret tt
       end k h
  = k tt (h ++ match field with
               | Some s => opt_if (negb (empty s)) [(opt, value s)]
               | None => nil
               end).
Proof.
  destruct field as [s|]; [apply bind_when_set_opt_accepting|].
  cbn. now rewrite app_nil_r.
Qed.

(** The whole run, in closed form. *)
Lemma init_remote_accepting config h :
  init_remote accepting config h
  = if maxspeed_below_minrate config
    then (h ++ [(LRO_USERAGENT, LrString (user_agent config))],
          Threw (RepoDownloadError speed_message))
    else match int64_of_float (maxspeed config) with
         | Some speed => (h ++ options_of config speed, Returned tt)
         | None =>
             (h ++ [(LRO_USERAGENT, LrString (user_agent config));
                    (LRO_LOWSPEEDLIMIT,
                     LrInt64 (int64_of_int (minrate config)))],
              Undefined)
         end.
Proof.
  destruct (maxspeed_below_minrate config) eqn:E.
  - now rewrite init_remote_rejected.
  - unfold init_remote. cbv zeta. rewrite E.
    rewrite bind_set_opt_accepting. cbn [when]. rewrite bind_ret.
    rewrite bind_set_opt_accepting.
    destruct (int64_of_float (maxspeed config)) as [speed|].
    + rewrite bind_defined_Some.
      rewrite bind_set_opt_accepting.
      rewrite bind_when_set_opt2_accepting.
      rewrite bind_choice_accepting.
      rewrite !bind_when_set_opt_accepting.
      rewrite !bind_set_opt_accepting.
      rewrite (bind_optional_accepting (proxy config) LRO_PROXY LrString).
      rewrite bind_set_opt_accepting.
      rewrite (bind_optional_accepting (proxy_username config)
                 LRO_PROXYUSERPWD
                 (fun user => LrString (format_user_pass_string
                                user (proxy_password config) true))).
      rewrite !bind_when_set_opt_accepting.
      rewrite !bind_set_opt_accepting.
      unfold set_opt, accepting, options_of.
      repeat rewrite <- app_assoc. reflexivity.
    + cbn. now rewrite <- app_assoc.
Qed.

End Accepting.

(** *** The settings of a complete run, option by option *)

Section Settings.

Lemma settings_nil opt : settings opt [] = [].
Proof. reflexivity. Qed.

Lemma settings_cons opt o v (l : LrHandle) :
  settings opt ((o, v) :: l)
  = (if LrHandleOption_eqb o opt then [v] else []) ++ settings opt l.
Proof. unfold settings. cbn. now destruct (LrHandleOption_eqb o opt). Qed.

Lemma In_settings opt v (l : LrHandle) :
  In (opt, v) l -> In v (settings opt l).
Proof.
  intros H. unfold settings. apply in_map_iff. exists (opt, v).
  split; [reflexivity|]. apply filter_In. split; [exact H|].
  apply LrHandleOption_eqb_refl.
Qed.

Lemma if_same {A} (b : bool) (x : A) : (if b then x else x) = x.
Proof. now destruct b. Qed.

Ltac settings_options :=
  unfold options_of;
  repeat match goal with
         | |- context [String.eqb (ip_resolve ?c) ?s] =>
             destruct (String.eqb (ip_resolve c) s)
         | |- context [proxy ?c] => destruct (proxy c)
         | |- context [proxy_username ?c] => destruct (proxy_username c)
         end;
  repeat first [ rewrite settings_app | rewrite settings_opt_if
               | rewrite settings_cons | rewrite settings_nil ];
  cbn [LrHandleOption_eqb app];
  rewrite ?if_same; cbn [app]; rewrite ?app_nil_r;
  try reflexivity.

Lemma settings_LOWSPEEDLIMIT config speed :
  settings LRO_LOWSPEEDLIMIT (options_of config speed)
  = [LrInt64 (int64_of_int (minrate config))].
Proof. settings_options. Qed.

Lemma settings_MAXSPEED config speed :
  settings LRO_MAXSPEED (options_of config speed) = [LrInt64 speed].
Proof. settings_options. Qed.

Lemma settings_IPRESOLVE config speed :
  settings LRO_IPRESOLVE (options_of config speed)
  = if String.eqb (ip_resolve config) "ipv4"
    then [LrIpResolve LR_IPRESOLVE_V4]
    else if String.eqb (ip_resolve config) "ipv6"
    then [LrIpResolve LR_IPRESOLVE_V6]
    else [].
Proof. settings_options. Qed.

Lemma settings_USERPWD config speed :
  settings LRO_USERPWD (options_of config speed)
  = if negb (empty (username config))
    then [LrString (format_user_pass_string (username config)
                                            (password config) false)]
    else [].
Proof. settings_options. Qed.

Lemma settings_PROXYAUTHMETHODS config speed :
  settings LRO_PROXYAUTHMETHODS (options_of config speed)
  = [LrAuthLong (scan_auth PROXYAUTHMETHODS (proxy_auth_method config)
                           LR_AUTH_ANY)].
Proof. settings_options. Qed.

Lemma settings_PROXYUSERPWD config speed :
  settings LRO_PROXYUSERPWD (options_of config speed)
  = match proxy_username config with
    | Some user =>
        if negb (empty user)
        then [LrString (format_user_pass_string user (proxy_password config)
                                                true)]
        else []
    | None => []
    end.
Proof. settings_options. Qed.

End Settings.

(** *** The table of proxy authentication methods *)

Lemma scan_auth_name m :
  scan_auth PROXYAUTHMETHODS (ProxyAuthMethod_name m) LR_AUTH_ANY = m.
Proof. now destruct m. Qed.

Lemma scan_auth_unknown str :
  (forall m, str <> ProxyAuthMethod_name m) ->
  scan_auth PROXYAUTHMETHODS str LR_AUTH_ANY = LR_AUTH_ANY.
Proof.
  intros H. unfold PROXYAUTHMETHODS. cbn [scan_auth].
  repeat match goal with
         | |- context [String.eqb str ?name] =>
             destruct (String.eqb_spec str name) as [E|_]
         end;
    try reflexivity; exfalso.
  - now apply (H LR_AUTH_NONE).
  - now apply (H LR_AUTH_BASIC).
  - now apply (H LR_AUTH_DIGEST).
  - now apply (H LR_AUTH_NEGOTIATE).
  - now apply (H LR_AUTH_NTLM).
  - now apply (H LR_AUTH_DIGEST_IE).
  - now apply (H LR_AUTH_NTLM_WB).
Qed.

(** *** Zero throttle *)

Lemma zero_throttle_maxspeed config :
  SFeqb (throttle config) (float_of_int 0) = true ->
  maxspeed_below_minrate config = false
  /\ int64_of_float (maxspeed config) = Some 0.
Proof.
  unfold maxspeed_below_minrate, maxspeed.
  destruct (throttle config) as [s|s| |s m e]; intros H;
    try (destruct s; discriminate H).
  - now destruct s.
  - discriminate H.
Qed.

(** ** Claims on the configurator *)

(** C1, amended.  When the computed [maxspeed] is non-zero and compares
    below [minrate] converted to single precision (the comparison of
    librepo.cpp:121), [init_remote] does not return: it throws, and what
    it throws is the [RepoDownloadError] of the speed check once the
    engine took the user-agent option of librepo.cpp:114, and the engine's
    error where it refused that option.  The check comes before
    librepo.cpp:127-128, so the session has received neither the
    low-speed-limit nor the max-speed option. *)
Theorem init_remote_speed_check engine config h :
  fne (maxspeed config) (float_of_int 0) = true ->
  flt (maxspeed config) (float_of_int (minrate config)) = true ->
  (exists e, snd (init_remote engine config h) = Threw e)
  /\ (engine h LRO_USERAGENT (LrString (user_agent config)) = true ->
      init_remote engine config h
      = (h ++ [(LRO_USERAGENT, LrString (user_agent config))],
         Threw (RepoDownloadError speed_message)))
  /\ (engine h LRO_USERAGENT (LrString (user_agent config)) = false ->
      init_remote engine config h = (h, Threw LibrepoError))
  /\ settings LRO_LOWSPEEDLIMIT (fst (init_remote engine config h))
     = settings LRO_LOWSPEEDLIMIT h
  /\ settings LRO_MAXSPEED (fst (init_remote engine config h))
     = settings LRO_MAXSPEED h.
Proof.
  intros Hne Hlt.
  assert (E : maxspeed_below_minrate config = true).
  { unfold maxspeed_below_minrate. now rewrite Hne, Hlt. }
  rewrite (init_remote_rejected engine config h E).
  destruct (engine h LRO_USERAGENT _); cbn [fst snd].
  - repeat split; eauto; try discriminate;
      rewrite settings_snoc; cbn; now rewrite app_nil_r.
  - repeat split; eauto. discriminate.
Qed.

(** C9. [init_remote] is not atomic: whenever it throws the
    [RepoDownloadError] of the speed check, the check has failed and the
    session already holds the user-agent option, set at librepo.cpp:114. *)
Theorem init_remote_not_atomic engine config h h' msg :
  init_remote engine config h = (h', Threw (RepoDownloadError msg)) ->
  maxspeed_below_minrate config = true
  /\ h' = h ++ [(LRO_USERAGENT, LrString (user_agent config))]
  /\ get_opt LRO_USERAGENT h' = Some (LrString (user_agent config))
  /\ h' <> h.
Proof.
  intros H. apply init_remote_RepoDownloadError in H.
  destruct H as [E ->]. split; [exact E|]. split; [reflexivity|].
  split; [apply get_opt_last|].
  intros C. apply (f_equal (@List.length _)) in C.
  rewrite length_app in C. cbn in C. lia.
Qed.

(** C2, amended.  [maxspeed] is [throttle * bandwidth] (the single
    precision product) when [throttle] is in (0, 1], and [throttle]
    otherwise.  Every run that returns has set the max-speed option to
    [maxspeed] converted to a 64-bit integer, the fraction dropped.  With
    [throttle == 0] the speed check passes, and an engine that accepts
    what it is given ends with the max-speed option at 0. *)
Theorem init_remote_maxspeed config h :
  maxspeed config
  = (if flt (float_of_int 0) (throttle config)
        && fle (throttle config) (float_of_int 1)
     then fmul (throttle config) (float_of_int (bandwidth config))
     else throttle config)
  /\ (forall engine h',
        init_remote engine config h = (h', Returned tt) ->
        exists speed,
          int64_of_float (maxspeed config) = Some speed
          /\ ftrunc (maxspeed config) = Some speed
          /\ settings LRO_MAXSPEED h'
             = settings LRO_MAXSPEED h ++ [LrInt64 speed]
          /\ get_opt LRO_MAXSPEED h' = Some (LrInt64 speed))
  /\ (SFeqb (throttle config) (float_of_int 0) = true ->
      maxspeed_below_minrate config = false
      /\ snd (init_remote accepting config h) = Returned tt
      /\ get_opt LRO_MAXSPEED (fst (init_remote accepting config h))
         = Some (LrInt64 0)).
Proof.
  split; [reflexivity|]. split.
  - intros engine h' H.
    apply init_remote_Returned in H. destruct H as (_ & speed & Hs & ->).
    exists speed. split; [exact Hs|]. split.
    + unfold int64_of_float in Hs.
      destruct (ftrunc (maxspeed config)) as [n|]; [|discriminate].
      destruct (_ && _); [exact Hs | discriminate].
    + assert (E : settings LRO_MAXSPEED (h ++ options_of config speed)
                  = settings LRO_MAXSPEED h ++ [LrInt64 speed])
        by now rewrite settings_app, settings_MAXSPEED.
      split; [exact E|]. exact (get_opt_settings _ _ _ _ E).
  - intros Hz. destruct (zero_throttle_maxspeed config Hz) as [Hc Hs].
    split; [exact Hc|].
    rewrite init_remote_accepting, Hc, Hs. cbn [fst snd].
    split; [reflexivity|].
    apply (get_opt_settings _ _ (settings LRO_MAXSPEED h)).
    now rewrite settings_app, settings_MAXSPEED.
Qed.

(** C4. Whatever value the user-password option receives is [username],
    ':' and [password] as they are, with [username] non-empty; whatever
    value the proxy-user-password option receives is the percent-encoded
    [proxy_username], ':' and the percent-encoded [proxy_password], with
    [proxy_username] set and non-empty.  A run that returns has set each of
    them under exactly these conditions. *)
Theorem init_remote_credentials engine config h :
  let plain :=
    LrString (username config ++ String ":" (password config))%string in
  let encoded user :=
    LrString (url_encode user
              ++ String ":" (url_encode (proxy_password config)))%string in
  only_adds LRO_USERPWD
    (fun v => empty (username config) = false /\ v = plain)
    h (fst (init_remote engine config h))
  /\ only_adds LRO_PROXYUSERPWD
       (fun v => exists user, proxy_username config = Some user
                              /\ empty user = false /\ v = encoded user)
       h (fst (init_remote engine config h))
  /\ (snd (init_remote engine config h) = Returned tt ->
      settings LRO_USERPWD (fst (init_remote engine config h))
      = settings LRO_USERPWD h
        ++ (if empty (username config) then [] else [plain])
      /\ settings LRO_PROXYUSERPWD (fst (init_remote engine config h))
         = settings LRO_PROXYUSERPWD h
           ++ match proxy_username config with
              | Some user => if empty user then [] else [encoded user]
              | None => []
              end).
Proof.
  intros plain encoded. split; [|split].
  - apply init_remote_only_adds. intros speed v Hin.
    apply In_settings in Hin. rewrite settings_USERPWD in Hin.
    destruct (empty (username config)); cbn in Hin; [tauto|].
    destruct Hin as [<-|[]]. now split.
  - apply init_remote_only_adds. intros speed v Hin.
    apply In_settings in Hin. rewrite settings_PROXYUSERPWD in Hin.
    destruct (proxy_username config) as [user|]; [|destruct Hin].
    destruct (empty user) eqn:E; cbn in Hin; [tauto|].
    destruct Hin as [<-|[]]. exists user. now repeat split.
  - intros Hret.
    destruct (init_remote engine config h) as [h' out] eqn:Hrun.
    cbn [snd] in Hret. subst out. cbn [fst].
    apply init_remote_Returned in Hrun.
    destruct Hrun as (_ & speed & _ & ->).
    rewrite !settings_app, settings_USERPWD, settings_PROXYUSERPWD.
    split.
    + now destruct (empty (username config)).
    + destruct (proxy_username config) as [user|]; [|reflexivity].
      now destruct (empty user).
Qed.

(** C5, amended.  Every run that returns has set the proxy-auth-methods
    option, whatever the other fields hold, to the image of
    [proxy_auth_method] under the closed enumeration: each of the eight
    tokens goes to its method, every other string to [LR_AUTH_ANY]. *)
Theorem init_remote_proxy_auth engine config h h' :
  init_remote engine config h = (h', Returned tt) ->
  exists method,
    settings LRO_PROXYAUTHMETHODS h'
    = settings LRO_PROXYAUTHMETHODS h ++ [LrAuthLong method]
    /\ get_opt LRO_PROXYAUTHMETHODS h' = Some (LrAuthLong method)
    /\ (forall m, proxy_auth_method config = ProxyAuthMethod_name m ->
                  method = m)
    /\ ((forall m, proxy_auth_method config <> ProxyAuthMethod_name m) ->
        method = LR_AUTH_ANY).
Proof.
  intros H. apply init_remote_Returned in H.
  destruct H as (_ & speed & _ & ->).
  exists (scan_auth PROXYAUTHMETHODS (proxy_auth_method config) LR_AUTH_ANY).
  assert (E : settings LRO_PROXYAUTHMETHODS (h ++ options_of config speed)
              = settings LRO_PROXYAUTHMETHODS h
                ++ [LrAuthLong (scan_auth PROXYAUTHMETHODS
                                  (proxy_auth_method config) LR_AUTH_ANY)])
    by now rewrite settings_app, settings_PROXYAUTHMETHODS.
  split; [exact E|]. split; [exact (get_opt_settings _ _ _ _ E)|]. split.
  - intros m ->. apply scan_auth_name.
  - apply scan_auth_unknown.
Qed.

(** C6, amended.  On every run the IP-resolve option receives IPv4-only
    only if [ip_resolve] is "ipv4" and IPv6-only only if it is "ipv6", and
    for any other value it receives nothing.  A run that returns has set
    IPv4-only when [ip_resolve] is "ipv4" and IPv6-only when it is
    "ipv6". *)
Theorem init_remote_ip_resolve engine config h :
  only_adds LRO_IPRESOLVE
    (fun v => (v = LrIpResolve LR_IPRESOLVE_V4 /\ ip_resolve config = "ipv4")
              \/ (v = LrIpResolve LR_IPRESOLVE_V6
                  /\ ip_resolve config = "ipv6"))
    h (fst (init_remote engine config h))
  /\ (ip_resolve config <> "ipv4" -> ip_resolve config <> "ipv6" ->
      settings LRO_IPRESOLVE (fst (init_remote engine config h))
      = settings LRO_IPRESOLVE h)
  /\ (snd (init_remote engine config h) = Returned tt ->
      (ip_resolve config = "ipv4" ->
       settings LRO_IPRESOLVE (fst (init_remote engine config h))
       = settings LRO_IPRESOLVE h ++ [LrIpResolve LR_IPRESOLVE_V4])
      /\ (ip_resolve config = "ipv6" ->
          settings LRO_IPRESOLVE (fst (init_remote engine config h))
          = settings LRO_IPRESOLVE h ++ [LrIpResolve LR_IPRESOLVE_V6])).
Proof.
  assert (A : only_adds LRO_IPRESOLVE
                (fun v => (v = LrIpResolve LR_IPRESOLVE_V4
                           /\ ip_resolve config = "ipv4")
                          \/ (v = LrIpResolve LR_IPRESOLVE_V6
                              /\ ip_resolve config = "ipv6"))
                h (fst (init_remote engine config h))).
  { apply init_remote_only_adds. intros speed v Hin.
    apply In_settings in Hin. rewrite settings_IPRESOLVE in Hin.
    destruct (String.eqb_spec (ip_resolve config) "ipv4") as [E4|_].
    - destruct Hin as [<-|[]]. now left.
    - destruct (String.eqb_spec (ip_resolve config) "ipv6") as [E6|_].
      + destruct Hin as [<-|[]]. now right.
      + destruct Hin. }
  split; [exact A|]. split.
  - intros N4 N6. destruct A as (extra & -> & F).
    destruct extra as [|v extra]; [now rewrite app_nil_r|].
    inversion F as [|? ? [[_ E]|[_ E]] _]; contradiction.
  - intros Hret.
    destruct (init_remote engine config h) as [h' out] eqn:Hrun.
    cbn [snd] in Hret. subst out. cbn [fst].
    apply init_remote_Returned in Hrun.
    destruct Hrun as (_ & speed & _ & ->).
    rewrite settings_app, settings_IPRESOLVE. split; intros ->; reflexivity.
Qed.

(** * Properties of the owning wrappers *)

(** X8. Assignment between two distinct [LibrepoResult] objects: the old
    pointer of the target is released, once; the target takes the pointer
    of the source; the source is left with [nullptr]; no handle is
    touched. *)
Lemma LibrepoResult_move_assign_distinct this other m :
  this <> other ->
  let m' := snd (LibrepoResult_move_assign this other m) in
  calls m' = (calls m ++ [lr_result_free (result m this)])%list
  /\ result m' this = result m other
  /\ result m' other = nullptr
  /\ handle m' = handle m.
Proof.
  intros N. unfold LibrepoResult_move_assign.
  destruct (Nat.eqb_spec this other) as [E|_]; [contradiction|].
  cbn. unfold assign. rewrite Nat.eqb_refl.
  destruct (Nat.eqb_spec this other) as [E|_]; [contradiction|].
  now rewrite Nat.eqb_refl.
Qed.

(** X9. Assignment between two distinct [LibrepoHandle] objects: the old
    pointer of the target is released, once; the target takes the pointer
    of the source; the source is left with [nullptr]; no result is
    touched. *)
Lemma LibrepoHandle_move_assign_distinct this other m :
  this <> other ->
  let m' := snd (LibrepoHandle_move_assign this other m) in
  calls m' = (calls m ++ [lr_handle_free (handle m this)])%list
  /\ handle m' this = handle m other
  /\ handle m' other = nullptr
  /\ result m' = result m.
Proof.
  intros N. unfold LibrepoHandle_move_assign.
  destruct (Nat.eqb_spec this other) as [E|_]; [contradiction|].
  cbn. unfold assign. rewrite Nat.eqb_refl.
  destruct (Nat.eqb_spec this other) as [E|_]; [contradiction|].
  now rewrite Nat.eqb_refl.
Qed.

(** C10. Assigning a [LibrepoResult] or a [LibrepoHandle] to itself by
    move changes nothing: the object keeps its pointer and no release
    function of the engine is called. *)
Theorem self_move_assign_noop (this : address) (m : memory) :
  LibrepoResult_move_assign this this m = (this, m)
  /\ LibrepoHandle_move_assign this this m = (this, m)
  /\ result (snd (LibrepoResult_move_assign this this m)) this
     = result m this
  /\ calls (snd (LibrepoResult_move_assign this this m)) = calls m
  /\ handle (snd (LibrepoHandle_move_assign this this m)) this
     = handle m this
  /\ calls (snd (LibrepoHandle_move_assign this this m)) = calls m.
Proof.
  unfold LibrepoResult_move_assign, LibrepoHandle_move_assign.
  rewrite Nat.eqb_refl. cbn. repeat split; reflexivity.
Qed.

(** * Further properties of the encoder and the joiner *)

Section EncoderFacts.

Local Open Scope string_scope.

Lemma count_escaped_append a b :
  count_escaped (a ++ b) = (count_escaped a + count_escaped b)%nat.
Proof.
  induction a as [|x a IH]; cbn [append count_escaped]; [reflexivity|].
  rewrite IH. lia.
Qed.

Lemma count_escaped_escape ch : count_escaped (percent_escape ch) = 1%nat.
Proof. each_ascii ch; reflexivity. Qed.

Lemma count_escaped_byte ch :
  count_escaped (encode_byte ch) = if kept ch then 0%nat else 1%nat.
Proof.
  unfold encode_byte. rewrite no_encode_kept. destruct (kept ch) eqn:E.
  - cbn [count_escaped]. now rewrite E.
  - apply count_escaped_escape.
Qed.

Lemma well_escaped_escape ch rest :
  well_escaped (percent_escape ch ++ rest) = well_escaped rest.
Proof. each_ascii ch; reflexivity. Qed.

Lemma well_escaped_byte ch rest :
  well_escaped (encode_byte ch ++ rest) = well_escaped rest.
Proof.
  unfold encode_byte. destruct (no_encode ch) eqn:E.
  - cbn [append well_escaped]. rewrite <- no_encode_kept, E.
    destruct (Ascii.eqb_spec ch "%") as [->|_]; [|reflexivity].
    rewrite no_encode_percent in E. discriminate E.
  - apply well_escaped_escape.
Qed.

Lemma concat_bytes_append a b :
  concat_bytes (a ++ b) = concat_bytes a ++ concat_bytes b.
Proof.
  induction a as [|x a IH]; cbn [append concat_bytes]; [reflexivity|].
  now rewrite IH, append_assoc.
Qed.

(** X1. The output of [url_encode] is well formed in every locale: it
    consists of bytes the encoder lets through (the unreserved ones, and
    from 0x80 on the letters and digits of the locale) and of escapes, and
    every '%' in it is followed by two lower-case hexadecimal digits. *)
Theorem url_encode_well_escaped (s : string) :
  well_escaped (url_encode s) = true.
Proof.
  rewrite url_encode_bytes.
  induction s as [|ch rest IH]; [reflexivity|].
  cbn [concat_bytes]. now rewrite well_escaped_byte.
Qed.

(** X2. [url_encode] works byte by byte: encoding a concatenation is
    concatenating the encodings, and the empty string encodes to the empty
    string. *)
Theorem url_encode_append (a b : string) :
  url_encode (a ++ b) = url_encode a ++ url_encode b
  /\ url_encode "" = "".
Proof.
  split; [|reflexivity]. rewrite !url_encode_bytes. apply concat_bytes_append.
Qed.

Lemma url_encode_fixed_iff s : url_encode s = s <-> count_escaped s = 0%nat.
Proof.
  split.
  - intros E. pose proof (length_url_encode s) as L. rewrite E in L. lia.
  - intros E. rewrite url_encode_bytes.
    induction s as [|ch rest IH]; [reflexivity|].
    cbn [count_escaped] in E. cbn [concat_bytes]. unfold encode_byte.
    rewrite no_encode_kept. destruct (kept ch); [|discriminate E].
    cbn [append]. now rewrite IH.
Qed.

(** X3. In every locale the output is at least as long as the input and
    at most three times as long, and [url_encode] returns its input
    unchanged exactly when every byte of it is one that is let through:
    an unreserved one, or from 0x80 on a letter or digit of the locale. *)
Theorem url_encode_length_bounds (s : string) :
  (String.length s <= String.length (url_encode s))%nat
  /\ (String.length (url_encode s) <= 3 * String.length s)%nat
  /\ (url_encode s = s <-> count_escaped s = 0%nat).
Proof.
  pose proof (length_url_encode s) as L.
  assert (T : (count_escaped s <= String.length s)%nat).
  { clear L. induction s as [|ch rest IH];
      cbn [count_escaped String.length]; [lia|].
    destruct (kept ch); lia. }
  split; [lia|]. split; [lia|]. apply url_encode_fixed_iff.
Qed.

Lemma count_escaped_url_encode s :
  count_escaped (url_encode s) = count_escaped s.
Proof.
  rewrite url_encode_bytes.
  induction s as [|ch rest IH]; [reflexivity|].
  cbn [concat_bytes count_escaped].
  now rewrite count_escaped_append, count_escaped_byte, IH.
Qed.

(** X5. Encoding is not idempotent, in any locale: the encoded string has
    as many bytes that are not let through as its source had (the '%'
    signs of the escapes), so a second pass adds four bytes for each of
    them, and leaves the string alone only when the first pass escaped
    nothing. *)
Theorem url_encode_twice (s : string) :
  count_escaped (url_encode s) = count_escaped s
  /\ String.length (url_encode (url_encode s))
     = (String.length s + 4 * count_escaped s)%nat
  /\ (url_encode (url_encode s) = url_encode s <-> count_escaped s = 0%nat).
Proof.
  pose proof (count_escaped_url_encode s) as CO.
  split; [exact CO|]. split.
  - rewrite (length_url_encode (url_encode s)), CO, length_url_encode. lia.
  - rewrite <- CO. apply url_encode_fixed_iff.
Qed.

Lemma split_at_colon a : forall a' b b',
  mem_char ":" a = false -> mem_char ":" a' = false ->
  a ++ String ":" b = a' ++ String ":" b' -> a = a' /\ b = b'.
Proof.
  induction a as [|x a IH]; intros [|x' a'] b b' Ha Ha' E; cbn in E.
  - inversion E; subst; auto.
  - inversion E; subst. cbn in Ha'. discriminate.
  - inversion E; subst. cbn in Ha. discriminate.
  - inversion E; subst x'.
    cbn [mem_char] in Ha, Ha'.
    apply orb_false_iff in Ha, Ha'.
    destruct (IH a' b b') as [-> ->]; tauto.
Qed.

(** X6. With [encode] the joined string determines both components: two
    pairs of credentials with the same result are the same pair. *)
Theorem format_user_pass_string_encoded_injective (u1 p1 u2 p2 : string) :
  format_user_pass_string u1 p1 true = format_user_pass_string u2 p2 true ->
  u1 = u2 /\ p1 = p2.
Proof.
  unfold format_user_pass_string. cbn [append]. intros E.
  apply split_at_colon in E; try apply url_encode_no_colon.
  destruct E as [Eu Ep].
  rewrite <- (url_decode_encode u1), <- (url_decode_encode u2),
          <- (url_decode_encode p1), <- (url_decode_encode p2).
  now rewrite Eu, Ep.
Qed.

(** X7. Without [encode] the joined string does not determine the
    components: a ':' inside the user name can as well be read as the
    separator, so two different pairs give the same result. *)
Theorem format_user_pass_string_plain_ambiguous (u p q : string) :
  format_user_pass_string (u ++ String ":" p) q false
  = format_user_pass_string u (p ++ String ":" q) false
  /\ u ++ String ":" p <> u.
Proof.
  unfold format_user_pass_string. split.
  - rewrite !append_assoc. reflexivity.
  - intros E. apply (f_equal String.length) in E.
    rewrite length_append in E. cbn in E. lia.
Qed.

End EncoderFacts.

(** * Further properties of the owning wrappers *)

Section Ownership.

Local Open Scope list_scope.

Ltac split_addresses :=
  repeat match goal with
         | |- context [Nat.eqb ?a ?b] =>
             destruct (Nat.eqb_spec a b); subst
         | H : context [Nat.eqb ?a ?b] |- _ =>
             destruct (Nat.eqb_spec a b); subst
         end.

Lemma LibrepoResult_move_assign_sound this other m :
  results_sound m -> results_sound (snd (LibrepoResult_move_assign this other m)).
Proof.
  intros [Hex Hfree]. unfold exclusive, nullptr in *.
  unfold LibrepoResult_move_assign.
  destruct (Nat.eqb_spec this other) as [E|N]; cbn; [now split|].
  split.
  - intros a b p Ha Hb. cbn in Ha, Hb. unfold assign, nullptr in Ha, Hb.
    split_addresses; try congruence; eauto;
      exfalso;
      match goal with
      | n : _ <> _ |- _ => apply n; eapply Hex; eassumption
      end.
  - intros a p Ha C. cbn in Ha. unfold assign, nullptr in Ha.
    apply in_app_or in C. destruct C as [C|[C|[]]].
    + split_addresses; try discriminate; eapply Hfree; eauto.
    + inversion C as [C'].
      split_addresses; try discriminate.
      * apply N. eapply Hex; eauto.
      * match goal with n : _ <> _ |- _ => apply n end. eapply Hex; eauto.
Qed.

Lemma LibrepoHandle_move_assign_sound this other m :
  handles_sound m -> handles_sound (snd (LibrepoHandle_move_assign this other m)).
Proof.
  intros [Hex Hfree]. unfold exclusive, nullptr in *.
  unfold LibrepoHandle_move_assign.
  destruct (Nat.eqb_spec this other) as [E|N]; cbn; [now split|].
  split.
  - intros a b p Ha Hb. cbn in Ha, Hb. unfold assign, nullptr in Ha, Hb.
    split_addresses; try congruence; eauto;
      exfalso;
      match goal with
      | n : _ <> _ |- _ => apply n; eapply Hex; eassumption
      end.
  - intros a p Ha C. cbn in Ha. unfold assign, nullptr in Ha.
    apply in_app_or in C. destruct C as [C|[C|[]]].
    + split_addresses; try discriminate; eapply Hfree; eauto.
    + inversion C as [C'].
      split_addresses; try discriminate.
      * apply N. eapply Hex; eauto.
      * match goal with n : _ <> _ |- _ => apply n end. eapply Hex; eauto.
Qed.

Lemma LibrepoResult_move_assign_handles this other m :
  handle (snd (LibrepoResult_move_assign this other m)) = handle m
  /\ forall p, In (lr_handle_free p)
                  (calls (snd (LibrepoResult_move_assign this other m)))
               -> In (lr_handle_free p) (calls m).
Proof.
  unfold LibrepoResult_move_assign.
  destruct (Nat.eqb this other); cbn; split; auto.
  intros p C. apply in_app_or in C. destruct C as [C|[C|[]]]; [exact C|].
  discriminate.
Qed.

Lemma LibrepoHandle_move_assign_results this other m :
  result (snd (LibrepoHandle_move_assign this other m)) = result m
  /\ forall p, In (lr_result_free p)
                  (calls (snd (LibrepoHandle_move_assign this other m)))
               -> In (lr_result_free p) (calls m).
Proof.
  unfold LibrepoHandle_move_assign.
  destruct (Nat.eqb this other); cbn; split; auto.
  intros p C. apply in_app_or in C. destruct C as [C|[C|[]]]; [exact C|].
  discriminate.
Qed.

Lemma sample_memory_sound : results_sound sample_memory /\ handles_sound sample_memory.
Proof.
  split; split.
  - intros [|[|a]] [|[|b]] p Ha Hb; cbn in Ha, Hb;
      unfold nullptr in *; congruence.
  - intros a p _ C. destruct C.
  - intros [|[|[|[|a]]]] [|[|[|[|b]]]] p Ha Hb; cbn in Ha, Hb;
      unfold nullptr in *; congruence.
  - intros a p _ C. destruct C.
Qed.

(** X10. Move assignment keeps ownership sound, for both wrappers and
    whatever the two addresses are: afterwards still no engine pointer is
    held by two objects and no object holds a released pointer, so no
    pointer can be released twice. *)
Theorem move_assign_keeps_ownership (this other : address) (m : memory) :
  results_sound m -> handles_sound m ->
  (results_sound (snd (LibrepoResult_move_assign this other m))
   /\ handles_sound (snd (LibrepoResult_move_assign this other m)))
  /\ (results_sound (snd (LibrepoHandle_move_assign this other m))
      /\ handles_sound (snd (LibrepoHandle_move_assign this other m))).
Proof.
  intros R H. split; split.
  - now apply LibrepoResult_move_assign_sound.
  - destruct (LibrepoResult_move_assign_handles this other m) as [E F].
    destruct H as [Hex Hfree]. split; rewrite E; [exact Hex|].
    intros a p Ha C. exact (Hfree a p Ha (F _ C)).
  - destruct (LibrepoHandle_move_assign_results this other m) as [E F].
    destruct R as [Hex Hfree]. split; rewrite E; [exact Hex|].
    intros a p Ha C. exact (Hfree a p Ha (F _ C)).
  - now apply LibrepoHandle_move_assign_sound.
Qed.

Lemma move_assign_keeps_ownership_witness :
  results_sound (snd (LibrepoResult_move_assign 0%nat 1%nat sample_memory))
  /\ handles_sound (snd (LibrepoHandle_move_assign 2%nat 3%nat sample_memory)).
Proof.
  destruct (move_assign_keeps_ownership 0%nat 1%nat sample_memory
              (proj1 sample_memory_sound) (proj2 sample_memory_sound))
    as [[R _] _].
  destruct (move_assign_keeps_ownership 2%nat 3%nat sample_memory
              (proj1 sample_memory_sound) (proj2 sample_memory_sound))
    as [_ [_ H]].
  split; assumption.
Defined.

(** X11. Move assignment loses no engine object: every pointer some
    object held before is afterwards held by some object or has been
    handed to the release function; and it makes at most one release
    call. *)
Theorem move_assign_no_leak (this other : address) (m : memory) :
  (forall a p, result m a = Some p ->
     (exists b, result (snd (LibrepoResult_move_assign this other m)) b
                = Some p)
     \/ In (lr_result_free (Some p))
           (calls (snd (LibrepoResult_move_assign this other m))))
  /\ (forall a p, handle m a = Some p ->
        (exists b, handle (snd (LibrepoHandle_move_assign this other m)) b
                   = Some p)
        \/ In (lr_handle_free (Some p))
              (calls (snd (LibrepoHandle_move_assign this other m))))
  /\ (exists new, calls (snd (LibrepoResult_move_assign this other m))
                  = (calls m ++ new)%list /\ (List.length new <= 1)%nat)
  /\ (exists new, calls (snd (LibrepoHandle_move_assign this other m))
                  = (calls m ++ new)%list /\ (List.length new <= 1)%nat).
Proof.
  assert (K : forall (field : address -> pointer) a p,
             this <> other -> field a = Some p ->
             (exists b, assign (assign field this (field other)) other nullptr b
                        = Some p)
             \/ field this = Some p).
  { intros field a p N Ha. unfold assign.
    destruct (Nat.eqb_spec a this) as [->|Na]; [now right|]. left.
    destruct (Nat.eqb_spec a other) as [->|No].
    - exists this. rewrite Nat.eqb_refl.
      destruct (Nat.eqb_spec this other); [contradiction | exact Ha].
    - exists a.
      destruct (Nat.eqb_spec a other); [contradiction|].
      destruct (Nat.eqb_spec a this); [contradiction | exact Ha]. }
  unfold LibrepoResult_move_assign, LibrepoHandle_move_assign.
  destruct (Nat.eqb_spec this other) as [E|N]; cbn.
  - repeat split; eauto; exists []; rewrite app_nil_r; auto.
  - split; [|split; [|split]].
    + intros a p Ha.
      destruct (K (result m) a p N Ha) as [H|H]; [now left|].
      right. apply in_or_app. right. rewrite H. now left.
    + intros a p Ha.
      destruct (K (handle m) a p N Ha) as [H|H]; [now left|].
      right. apply in_or_app. right. rewrite H. now left.
    + eexists. split; [reflexivity | cbn; lia].
    + eexists. split; [reflexivity | cbn; lia].
Qed.

Lemma LibrepoResult_move_assign_distinct_witness :
  calls (snd (LibrepoResult_move_assign 0%nat 1%nat sample_memory))
  = [lr_result_free (Some 10%nat)]
  /\ result (snd (LibrepoResult_move_assign 0%nat 1%nat sample_memory)) 0%nat
     = Some 11%nat
  /\ result (snd (LibrepoResult_move_assign 0%nat 1%nat sample_memory)) 1%nat
     = nullptr.
Proof.
  destruct (LibrepoResult_move_assign_distinct 0%nat 1%nat sample_memory)
    as (A & B & C & _); [lia|].
  repeat split; assumption.
Defined.

Lemma LibrepoHandle_move_assign_distinct_witness :
  calls (snd (LibrepoHandle_move_assign 2%nat 3%nat sample_memory))
  = [lr_handle_free (Some 20%nat)]
  /\ handle (snd (LibrepoHandle_move_assign 2%nat 3%nat sample_memory)) 2%nat
     = Some 21%nat
  /\ handle (snd (LibrepoHandle_move_assign 2%nat 3%nat sample_memory)) 3%nat
     = nullptr.
Proof.
  destruct (LibrepoHandle_move_assign_distinct 2%nat 3%nat sample_memory)
    as (A & B & C & _); [lia|].
  repeat split; assumption.
Defined.

End Ownership.

(** * Further properties of the configurator *)

Section Feeding.

Local Open Scope list_scope.

Variable engine : LrHandle -> LrHandleOption -> LrValue -> bool.

Lemma feed_app h (l1 l2 : LrHandle) :
  feed engine h (l1 ++ l2)
  = match feed engine h l1 with
    | (h1, true) => feed engine h1 l2
    | (h1, false) => (h1, false)
    end.
Proof.
  revert h. induction l1 as [|[o v] l1 IH]; intros h; cbn; [reflexivity|].
  destruct (engine h o v); [apply IH | reflexivity].
Qed.

Lemma feed_then_app {B} (l1 l2 : LrHandle) (K : run B) h :
  feed_then engine l1 (feed_then engine l2 K) h
  = feed_then engine (l1 ++ l2) K h.
Proof.
  unfold feed_then. rewrite feed_app.
  now destruct (feed engine h l1) as [h1 []].
Qed.

Lemma feed_then_ext {B} (l : LrHandle) (K K' : run B) h :
  (forall h', K h' = K' h') -> feed_then engine l K h = feed_then engine l K' h.
Proof.
  intros E. unfold feed_then. now destruct (feed engine h l) as [h1 []].
Qed.

Lemma feeds_then {B} c (l1 l2 : LrHandle) (k : unit -> run B) (K : run B) h :
  feeds engine c l1 ->
  (forall h', k tt h' = feed_then engine l2 K h') ->
  bind c k h = feed_then engine (l1 ++ l2) K h.
Proof.
  intros Hc Hk. rewrite (Hc B k h), <- feed_then_app.
  apply feed_then_ext. exact Hk.
Qed.

Lemma feeds_set_opt opt v : feeds engine (set_opt engine opt v) [(opt, v)].
Proof.
  intros B k h. unfold bind, set_opt, feed_then. cbn [feed].
  now destruct (engine h opt v).
Qed.

Lemma feeds_ret : feeds engine (ret tt) [].
Proof. intros B k h. reflexivity. Qed.

Lemma feeds_when c body l :
  feeds engine body l -> feeds engine (when c body) (opt_if c l).
Proof. destruct c; cbn [when opt_if]; [auto | intros _; apply feeds_ret]. Qed.

Lemma feeds_bind c1 c2 (l1 l2 : LrHandle) :
  feeds engine c1 l1 -> feeds engine c2 l2 ->
  feeds engine (bind c1 (fun _ => c2)) (l1 ++ l2).
Proof.
  intros H1 H2 B k h.
  assert (A : bind (bind c1 (fun _ => c2)) k h
              = bind c1 (fun _ => bind c2 k) h).
  { unfold bind. destruct (c1 h) as [h1 [[]| |]]; reflexivity. }
  rewrite A. apply feeds_then; [exact H1|]. intros h'. apply H2.
Qed.

Lemma seq_set_opt {B} opt v (l : LrHandle) (k : unit -> run B) (K : run B) h :
  (forall h', k tt h' = feed_then engine l K h') ->
  bind (set_opt engine opt v) k h = feed_then engine ((opt, v) :: l) K h.
Proof.
  intros H.
  exact (feeds_then (set_opt engine opt v) [(opt, v)] l k K h
           (feeds_set_opt opt v) H).
Qed.

Lemma last_set_opt opt v h :
  set_opt engine opt v h = feed_then engine [(opt, v)] (ret tt) h.
Proof.
  unfold set_opt, feed_then. cbn [feed]. now destruct (engine h opt v).
Qed.

Ltac feed_step :=
  first
    [ apply seq_set_opt
    | apply feeds_then;
      [ first [ apply feeds_when;
                first [ apply feeds_set_opt
                      | exact (feeds_bind _ _ [_] [_] (feeds_set_opt _ _)
                                 (feeds_set_opt _ _)) ]
              | match goal with
                | |- feeds _ (if ?c then _ else _) _ =>
                    destruct c;
                    [ apply feeds_set_opt
                    | match goal with
                      | |- feeds _ (if ?d then _ else _) _ =>
                          destruct d; [apply feeds_set_opt | apply feeds_ret]
                      end ]
                | |- feeds _ (match ?o with Some _ => _ | None => _ end) _ =>
                    destruct o;
                    [ apply feeds_when, feeds_set_opt | apply feeds_ret ]
                end ]
      | ] ];
  intros ?; cbv beta.

Lemma init_remote_feeding config h :
  init_remote engine config h
  = if maxspeed_below_minrate config
    then feed_then engine [(LRO_USERAGENT, LrString (user_agent config))]
           (throw (RepoDownloadError speed_message)) h
    else match int64_of_float (maxspeed config) with
         | Some speed =>
             feed_then engine (options_of config speed) (ret tt) h
         | None =>
             feed_then engine
               [(LRO_USERAGENT, LrString (user_agent config));
                (LRO_LOWSPEEDLIMIT, LrInt64 (int64_of_int (minrate config)))]
               (@defined unit None) h
         end.
Proof.
  unfold init_remote. cbv zeta.
  destruct (maxspeed_below_minrate config).
  - apply seq_set_opt. intros h'. reflexivity.
  - destruct (int64_of_float (maxspeed config)) as [speed|].
    + unfold options_of. cbn [app].
      feed_step. cbn [when]. rewrite bind_ret.
      feed_step. rewrite bind_defined_Some.
      do 16 feed_step.
      apply last_set_opt.
    + apply seq_set_opt. intros h1. cbn [when]. rewrite bind_ret.
      apply seq_set_opt. intros h2. reflexivity.
Qed.

(** X12. Whatever the engine answers, [init_remote] is this: the options
    of [options_of] are handed to the engine in order until one is
    refused, which ends the run with the engine's error; the speed check
    comes after the user-agent option, and the conversion of [maxspeed]
    after the low-speed limit. *)
Theorem init_remote_feed config h :
  init_remote engine config h
  = if maxspeed_below_minrate config
    then feed_then engine [(LRO_USERAGENT, LrString (user_agent config))]
           (throw (RepoDownloadError speed_message)) h
    else match int64_of_float (maxspeed config) with
         | Some speed =>
             feed_then engine (options_of config speed) (ret tt) h
         | None =>
             feed_then engine
               [(LRO_USERAGENT, LrString (user_agent config));
                (LRO_LOWSPEEDLIMIT, LrInt64 (int64_of_int (minrate config)))]
               (@defined unit None) h
         end.
Proof. apply init_remote_feeding. Qed.

Lemma feed_spec h (l : LrHandle) :
  exists done rest,
    l = done ++ rest
    /\ fst (feed engine h l) = h ++ done
    /\ (if snd (feed engine h l) then rest = []
        else exists o v rest',
               rest = (o, v) :: rest' /\ engine (h ++ done) o v = false).
Proof.
  revert h. induction l as [|[o v] l IH]; intros h; cbn [feed].
  - exists [], []. cbn. now rewrite app_nil_r.
  - destruct (engine h o v) eqn:E.
    + destruct (IH (h ++ [(o, v)])) as (done & rest & -> & Hf & Hs).
      exists ((o, v) :: done), rest.
      split; [reflexivity|]. split.
      * rewrite Hf, <- app_assoc. reflexivity.
      * destruct (snd (feed engine (h ++ [(o, v)]) (done ++ rest)));
          [exact Hs|].
        destruct Hs as (o' & v' & rest' & -> & Hr).
        exists o', v', rest'. split; [reflexivity|].
        now rewrite <- app_assoc in Hr.
    + exists [], ((o, v) :: l). cbn [fst snd app].
      split; [reflexivity|]. split; [now rewrite app_nil_r|].
      exists o, v, l. split; [reflexivity|]. now rewrite app_nil_r.
Qed.

(** What [feed_then] leaves behind, by the way it ends. *)
Lemma feed_then_spec {B} (l : LrHandle) (K : run B) h :
  (forall h', fst (K h') = h') ->
  exists done rest,
    l = done ++ rest
    /\ fst (feed_then engine l K h) = h ++ done
    /\ ((rest = [] /\ snd (feed_then engine l K h) = snd (K (h ++ done)))
        \/ (snd (feed_then engine l K h) = Threw LibrepoError
            /\ exists o v rest',
                 rest = (o, v) :: rest'
                 /\ engine (h ++ done) o v = false)).
Proof.
  intros HK.
  destruct (feed_spec h l) as (done & rest & El & Hf & Hs).
  exists done, rest. split; [exact El|].
  unfold feed_then.
  destruct (feed engine h l) as [h1 b]. cbn [fst snd] in Hf, Hs. subst h1.
  destruct b; cbn [fst snd].
  - split; [apply HK|]. left. now split.
  - split; [reflexivity|]. right. now split.
Qed.

End Feeding.

Section Shape.

Local Open Scope list_scope.

Variable engine : LrHandle -> LrHandleOption -> LrValue -> bool.

(** The four ways a run can end, with what the session holds then. *)
Lemma init_remote_shape config h :
  exists speed done rest,
    options_of config speed = done ++ rest
    /\ fst (init_remote engine config h) = h ++ done
    /\ ((rest = []
         /\ snd (init_remote engine config h) = Returned tt
         /\ maxspeed_below_minrate config = false
         /\ int64_of_float (maxspeed config) = Some speed)
        \/ (snd (init_remote engine config h) = Threw LibrepoError
            /\ exists o v rest',
                 rest = (o, v) :: rest' /\ engine (h ++ done) o v = false)
        \/ (snd (init_remote engine config h)
            = Threw (RepoDownloadError speed_message)
            /\ done = [(LRO_USERAGENT, LrString (user_agent config))]
            /\ maxspeed_below_minrate config = true)
        \/ (snd (init_remote engine config h) = Undefined
            /\ done = [(LRO_USERAGENT, LrString (user_agent config));
                       (LRO_LOWSPEEDLIMIT,
                        LrInt64 (int64_of_int (minrate config)))]
            /\ maxspeed_below_minrate config = false
            /\ int64_of_float (maxspeed config) = None)).
Proof.
  assert (T : exists tail,
             options_of config 0
             = (LRO_USERAGENT, LrString (user_agent config))
               :: (LRO_LOWSPEEDLIMIT, LrInt64 (int64_of_int (minrate config)))
               :: tail)
    by (eexists; reflexivity).
  destruct T as [tail T].
  rewrite init_remote_feeding.
  destruct (maxspeed_below_minrate config) eqn:Hc.
  - destruct (feed_then_spec engine
                [(LRO_USERAGENT, LrString (user_agent config))]
                (@throw unit (RepoDownloadError speed_message)) h
                (fun _ => eq_refl))
      as (done & rest & El & Hf & [[-> Hs]|[Hs (o & v & rest' & -> & Hr)]]).
    + rewrite app_nil_r in El. subst done.
      exists 0, [(LRO_USERAGENT, LrString (user_agent config))].
      eexists. split; [rewrite T; reflexivity|]. split; [exact Hf|].
      right. right. left. now rewrite Hs.
    + exists 0, done.
      exists ((o, v) :: rest'
              ++ (LRO_LOWSPEEDLIMIT, LrInt64 (int64_of_int (minrate config)))
              :: tail).
      split.
      { rewrite T.
        change (done ++ (o, v) :: rest' ++ ?x)
          with (done ++ ((o, v) :: rest') ++ x).
        rewrite app_assoc, <- El. reflexivity. }
      split; [exact Hf|]. right. left. split; [exact Hs|]. eauto.
  - destruct (int64_of_float (maxspeed config)) as [speed|] eqn:Hs'.
    + destruct (feed_then_spec engine (options_of config speed) (ret tt) h
                  (fun _ => eq_refl))
        as (done & rest & El & Hf & [[-> Hs]|[Hs (o & v & rest' & -> & Hr)]]).
      * exists speed, done, []. split; [exact El|]. split; [exact Hf|].
        left. now rewrite Hs.
      * exists speed, done, ((o, v) :: rest').
        split; [exact El|]. split; [exact Hf|]. right. left.
        split; [exact Hs|]. eauto.
    + destruct (feed_then_spec engine
                  [(LRO_USERAGENT, LrString (user_agent config));
                   (LRO_LOWSPEEDLIMIT,
                    LrInt64 (int64_of_int (minrate config)))]
                  (@defined unit None) h (fun _ => eq_refl))
        as (done & rest & El & Hf & [[-> Hs]|[Hs (o & v & rest' & -> & Hr)]]).
      * rewrite app_nil_r in El. subst done.
        exists 0, [(LRO_USERAGENT, LrString (user_agent config));
                   (LRO_LOWSPEEDLIMIT,
                    LrInt64 (int64_of_int (minrate config)))], tail.
        split; [rewrite T; reflexivity|].
        split; [exact Hf|]. right. right. right. now rewrite Hs.
      * exists 0, done, ((o, v) :: rest' ++ tail).
        split.
        { rewrite T.
          change (done ++ (o, v) :: rest' ++ tail)
            with (done ++ ((o, v) :: rest') ++ tail).
          rewrite app_assoc, <- El. reflexivity. }
        split; [exact Hf|]. right. left. split; [exact Hs|]. eauto.
Qed.

End Shape.

Section Outcomes.

Local Open Scope list_scope.

Ltac settings_of_options :=
  unfold options_of;
  repeat match goal with
         | |- context [String.eqb (ip_resolve ?c) ?s] =>
             destruct (String.eqb (ip_resolve c) s)
         | |- context [proxy ?c] => destruct (proxy c)
         | |- context [proxy_username ?c] => destruct (proxy_username c)
         end;
  repeat first [ rewrite settings_app | rewrite settings_opt_if
               | rewrite settings_cons | rewrite settings_nil ];
  cbn [LrHandleOption_eqb app];
  rewrite ?if_same; cbn [app]; rewrite ?app_nil_r;
  try reflexivity.

Lemma settings_options_of_once opt config speed :
  (List.length (settings opt (options_of config speed)) <= 1)%nat.
Proof.
  destruct opt; settings_of_options;
    repeat match goal with
           | |- context [List.length (if ?b then _ else _)] => destruct b
           end;
    cbn [List.length]; lia.
Qed.

Lemma settings_prefix_length opt (done rest : LrHandle) :
  (List.length (settings opt done)
   <= List.length (settings opt (done ++ rest)))%nat.
Proof. rewrite settings_app, length_app. lia. Qed.

(** X13. [init_remote] only appends to the session, and what it appends
    is an initial part of the sequence [options_of]: the options already
    set stay as they were, in place, and the new ones come in the order of
    the source with none left out before the run stopped.  A run that
    returns has appended the whole sequence. *)
Theorem init_remote_extends engine config h :
  exists speed done rest,
    fst (init_remote engine config h) = h ++ done
    /\ options_of config speed = done ++ rest
    /\ (snd (init_remote engine config h) = Returned tt -> rest = []).
Proof.
  destruct (init_remote_shape engine config h)
    as (speed & done & rest & Eo & Ef & Hs).
  exists speed, done, rest. split; [exact Ef|]. split; [exact Eo|].
  intros R. rewrite R in Hs.
  destruct Hs as [[-> _]|[[C _]|[[C _]|[C _]]]];
    [reflexivity | discriminate C ..].
Qed.

(** X14. [init_remote] sets no option twice: whatever the engine answers
    and however the run ends, each option has received at most one value
    more than it held before. *)
Theorem init_remote_once engine config h opt :
  (List.length (settings opt (fst (init_remote engine config h)))
   <= List.length (settings opt h) + 1)%nat.
Proof.
  destruct (init_remote_shape engine config h)
    as (speed & done & rest & Eo & Ef & _).
  rewrite Ef, settings_app, length_app.
  pose proof (settings_prefix_length opt done rest) as P.
  rewrite <- Eo in P.
  pose proof (settings_options_of_once opt config speed). lia.
Qed.

(** X15. A run that ends with the engine's error stopped at the first
    option the engine refused: the options before it in [options_of] are
    set, the refused one and those after it are not. *)
Theorem init_remote_LibrepoError engine config h :
  snd (init_remote engine config h) = Threw LibrepoError ->
  exists speed done opt value rest,
    options_of config speed = done ++ (opt, value) :: rest
    /\ fst (init_remote engine config h) = h ++ done
    /\ engine (h ++ done) opt value = false.
Proof.
  intros L.
  destruct (init_remote_shape engine config h)
    as (speed & done & rest & Eo & Ef & Hs).
  rewrite L in Hs.
  destruct Hs as [(_ & C & _)|[(_ & o & v & rest' & -> & Hr)|[[C _]|[C _]]]];
    try discriminate C.
  exists speed, done, o, v, rest'. auto.
Qed.

End Outcomes.

Section Values.

Local Open Scope list_scope.

Ltac settings_of_options :=
  unfold options_of;
  repeat match goal with
         | |- context [String.eqb (ip_resolve ?c) ?s] =>
             destruct (String.eqb (ip_resolve c) s)
         | |- context [proxy ?c] => destruct (proxy c)
         | |- context [proxy_username ?c] => destruct (proxy_username c)
         end;
  repeat first [ rewrite settings_app | rewrite settings_opt_if
               | rewrite settings_cons | rewrite settings_nil ];
  cbn [LrHandleOption_eqb app negb];
  rewrite ?if_same; cbn [app]; rewrite ?app_nil_r;
  try reflexivity.

Lemma int64_of_int_id n : - 2 ^ 63 <= n < 2 ^ 63 -> int64_of_int n = n.
Proof. intros H. unfold int64_of_int. rewrite Z.mod_small; lia. Qed.

Lemma settings_USERAGENT config speed :
  settings LRO_USERAGENT (options_of config speed)
  = [LrString (user_agent config)].
Proof. settings_of_options. Qed.

Lemma settings_CONNECTTIMEOUT config speed :
  settings LRO_CONNECTTIMEOUT (options_of config speed)
  = if 0 <? long_of_int (timeout config)
    then [LrLong (long_of_int (timeout config))] else [].
Proof. settings_of_options. Qed.

Lemma settings_LOWSPEEDTIME config speed :
  settings LRO_LOWSPEEDTIME (options_of config speed)
  = if 0 <? long_of_int (timeout config)
    then [LrLong (long_of_int (timeout config))] else [].
Proof. settings_of_options. Qed.

Lemma settings_SSLVERIFYHOST config speed :
  settings LRO_SSLVERIFYHOST (options_of config speed)
  = [LrLong (if sslverify config then 1 else 0)].
Proof. settings_of_options. Qed.

Lemma settings_SSLVERIFYPEER config speed :
  settings LRO_SSLVERIFYPEER (options_of config speed)
  = [LrLong (if sslverify config then 1 else 0)].
Proof. settings_of_options. Qed.

Lemma settings_PROXY_SSLVERIFYHOST config speed :
  settings LRO_PROXY_SSLVERIFYHOST (options_of config speed)
  = [LrLong (if proxy_sslverify config then 1 else 0)].
Proof. settings_of_options. Qed.

Lemma settings_PROXY_SSLVERIFYPEER config speed :
  settings LRO_PROXY_SSLVERIFYPEER (options_of config speed)
  = [LrLong (if proxy_sslverify config then 1 else 0)].
Proof. settings_of_options. Qed.

Lemma settings_SSLCACERT config speed :
  settings LRO_SSLCACERT (options_of config speed)
  = if_given (sslcacert config).
Proof. unfold if_given, options_of.
  destruct (empty (sslcacert config)); settings_of_options. Qed.

Lemma settings_SSLCLIENTCERT config speed :
  settings LRO_SSLCLIENTCERT (options_of config speed)
  = if_given (sslclientcert config).
Proof.
  unfold if_given, options_of.
  destruct (empty (sslclientcert config)); settings_of_options.
Qed.

Lemma settings_SSLCLIENTKEY config speed :
  settings LRO_SSLCLIENTKEY (options_of config speed)
  = if_given (sslclientkey config).
Proof.
  unfold if_given, options_of.
  destruct (empty (sslclientkey config)); settings_of_options.
Qed.

Lemma settings_PROXY_SSLCACERT config speed :
  settings LRO_PROXY_SSLCACERT (options_of config speed)
  = if_given (proxy_sslcacert config).
Proof.
  unfold if_given, options_of.
  destruct (empty (proxy_sslcacert config)); settings_of_options.
Qed.

Lemma settings_PROXY_SSLCLIENTCERT config speed :
  settings LRO_PROXY_SSLCLIENTCERT (options_of config speed)
  = if_given (proxy_sslclientcert config).
Proof.
  unfold if_given, options_of.
  destruct (empty (proxy_sslclientcert config)); settings_of_options.
Qed.

Lemma settings_PROXY_SSLCLIENTKEY config speed :
  settings LRO_PROXY_SSLCLIENTKEY (options_of config speed)
  = if_given (proxy_sslclientkey config).
Proof.
  unfold if_given, options_of.
  destruct (empty (proxy_sslclientkey config)); settings_of_options.
Qed.

Lemma settings_PROXY config speed :
  settings LRO_PROXY (options_of config speed)
  = match proxy config with
    | Some url => if_given url
    | None => []
    end.
Proof.
  unfold if_given, options_of.
  destruct (proxy config) as [url|]; [destruct (empty url)|];
    settings_of_options.
Qed.

End Values.

Section ReturnedValues.

Local Open Scope list_scope.

Ltac returned H :=
  apply init_remote_Returned in H;
  destruct H as (_ & ?speed & _ & ->);
  rewrite ?settings_app.

(** X17. A run that returns has set the low-speed limit to [minrate], and
    has set the connect timeout and the low-speed time, both to [timeout],
    exactly when [timeout] is positive; with [timeout] zero neither of the
    two is touched.  ([minrate] and [timeout] within the range of
    [int64_t].) *)
Theorem init_remote_limits engine config h h' :
  - 2 ^ 63 <= minrate config < 2 ^ 63 ->
  - 2 ^ 63 <= timeout config < 2 ^ 63 ->
  init_remote engine config h = (h', Returned tt) ->
  settings LRO_LOWSPEEDLIMIT h'
  = settings LRO_LOWSPEEDLIMIT h ++ [LrInt64 (minrate config)]
  /\ settings LRO_CONNECTTIMEOUT h'
     = settings LRO_CONNECTTIMEOUT h
       ++ (if 0 <? timeout config then [LrLong (timeout config)] else [])
  /\ settings LRO_LOWSPEEDTIME h'
     = settings LRO_LOWSPEEDTIME h
       ++ (if 0 <? timeout config then [LrLong (timeout config)] else []).
Proof.
  intros Hm Ht H. returned H.
  rewrite settings_LOWSPEEDLIMIT, settings_CONNECTTIMEOUT,
          settings_LOWSPEEDTIME.
  unfold long_of_int. rewrite !int64_of_int_id by assumption.
  repeat split; reflexivity.
Qed.

(** X18. A run that returns has set host and peer verification to the
    same value, 1 when [sslverify] holds and 0 otherwise, and likewise the
    two proxy verification options from [proxy_sslverify]: the two checks
    cannot be switched separately. *)
Theorem init_remote_verification engine config h h' :
  init_remote engine config h = (h', Returned tt) ->
  get_opt LRO_SSLVERIFYHOST h' = Some (LrLong (if sslverify config then 1 else 0))
  /\ get_opt LRO_SSLVERIFYPEER h' = get_opt LRO_SSLVERIFYHOST h'
  /\ get_opt LRO_PROXY_SSLVERIFYHOST h'
     = Some (LrLong (if proxy_sslverify config then 1 else 0))
  /\ get_opt LRO_PROXY_SSLVERIFYPEER h' = get_opt LRO_PROXY_SSLVERIFYHOST h'.
Proof.
  intros H. apply init_remote_Returned in H.
  destruct H as (_ & speed & _ & ->).
  assert (G : forall opt v,
             settings opt (options_of config speed) = [v] ->
             get_opt opt (h ++ options_of config speed) = Some v).
  { intros opt v E. apply (get_opt_settings _ _ (settings opt h)).
    now rewrite settings_app, E. }
  rewrite (G _ _ (settings_SSLVERIFYHOST config speed)),
          (G _ _ (settings_SSLVERIFYPEER config speed)),
          (G _ _ (settings_PROXY_SSLVERIFYHOST config speed)),
          (G _ _ (settings_PROXY_SSLVERIFYPEER config speed)).
  repeat split; reflexivity.
Qed.

(** X19. A run that returns has set the user agent, even when it is
    empty, and has set each certificate, key and proxy URL option to its
    field as it is when the field is not empty, and not at all when it is
    empty or, for the proxy URL, unset. *)
Theorem init_remote_paths engine config h h' :
  init_remote engine config h = (h', Returned tt) ->
  settings LRO_USERAGENT h'
  = settings LRO_USERAGENT h ++ [LrString (user_agent config)]
  /\ settings LRO_SSLCACERT h'
     = settings LRO_SSLCACERT h ++ if_given (sslcacert config)
  /\ settings LRO_SSLCLIENTCERT h'
     = settings LRO_SSLCLIENTCERT h ++ if_given (sslclientcert config)
  /\ settings LRO_SSLCLIENTKEY h'
     = settings LRO_SSLCLIENTKEY h ++ if_given (sslclientkey config)
  /\ settings LRO_PROXY h'
     = settings LRO_PROXY h
       ++ match proxy config with Some url => if_given url | None => [] end
  /\ settings LRO_PROXY_SSLCACERT h'
     = settings LRO_PROXY_SSLCACERT h ++ if_given (proxy_sslcacert config)
  /\ settings LRO_PROXY_SSLCLIENTCERT h'
     = settings LRO_PROXY_SSLCLIENTCERT h
       ++ if_given (proxy_sslclientcert config)
  /\ settings LRO_PROXY_SSLCLIENTKEY h'
     = settings LRO_PROXY_SSLCLIENTKEY h
       ++ if_given (proxy_sslclientkey config).
Proof.
  intros H. returned H.
  rewrite settings_USERAGENT, settings_SSLCACERT, settings_SSLCLIENTCERT,
          settings_SSLCLIENTKEY, settings_PROXY, settings_PROXY_SSLCACERT,
          settings_PROXY_SSLCLIENTCERT, settings_PROXY_SSLCLIENTKEY.
  repeat split; reflexivity.
Qed.

End ReturnedValues.

(** * Further properties of the speed computation *)

Section Speeds.

Local Open Scope list_scope.

Lemma shr_1_nonneg mrs : 0 <= shr_m mrs -> 0 <= shr_m (shr_1 mrs).
Proof.
  destruct mrs as [m r b]. cbn [shr_m].
  destruct m as [|[q|q|]|q]; cbn; lia.
Qed.

Lemma iter_pos_shr_1_nonneg q : forall mrs,
  0 <= shr_m mrs -> 0 <= shr_m (iter_pos shr_1 q mrs).
Proof.
  induction q as [q IH|q IH|]; intros mrs H; cbn [iter_pos];
    auto using shr_1_nonneg.
Qed.

Lemma shr_fexp_nonneg m e l :
  0 <= m -> 0 <= shr_m (fst (shr_fexp 24 128 m e l)).
Proof.
  intros H. unfold shr_fexp, shr.
  assert (R : 0 <= shr_m (shr_record_of_loc m l))
    by (destruct l as [|[]]; exact H).
  destruct (fexp 24 128 (Zdigits2 m + e) - e); cbn [fst]; auto.
  now apply iter_pos_shr_1_nonneg.
Qed.

Lemma round_nearest_even_nonneg mx lx :
  0 <= mx -> 0 <= round_nearest_even mx lx.
Proof.
  intros H. destruct lx as [|[]]; cbn; try destruct (Z.even mx); lia.
Qed.

Lemma binary_round_aux_sign sx mx ex lx :
  0 <= mx ->
  match binary_round_aux 24 128 sx mx ex lx with
  | S754_nan => False
  | S754_zero s | S754_infinity s | S754_finite s _ _ => s = sx
  end.
Proof.
  intros H. unfold binary_round_aux.
  pose proof (shr_fexp_nonneg mx ex lx H) as H1.
  destruct (shr_fexp 24 128 mx ex lx) as [mrs' e']. cbn [fst] in H1.
  pose proof (shr_fexp_nonneg _ e' loc_Exact
                (round_nearest_even_nonneg _ (loc_of_shr_record mrs') H1))
    as H2.
  destruct (shr_fexp 24 128 _ e' loc_Exact) as [mrs'' e'']. cbn [fst] in H2.
  destruct (shr_m mrs'') as [|q|q]; [reflexivity | | lia].
  now destruct (e'' <=? 128 - 24).
Qed.

(** Converting a non-negative integer never gives a negative number, and
    never gives "not a number". *)
Lemma float_of_int_sign n :
  0 <= n ->
  match float_of_int n with
  | S754_nan => False
  | S754_zero s | S754_infinity s | S754_finite s _ _ => s = false
  end.
Proof.
  intros H. unfold float_of_int, binary_normalize.
  destruct n as [|q|q]; [reflexivity | | lia].
  unfold binary_round.
  destruct (shl_align q 0 _) as [mz ez].
  apply binary_round_aux_sign. lia.
Qed.

Lemma maxspeed_verbatim config :
  fgt (throttle config) (float_of_int 0) = false ->
  maxspeed config = throttle config.
Proof. intros E. unfold maxspeed. now rewrite E. Qed.

(** X20. A negative [throttle] is always refused: with [minrate] not
    negative the speed check fails, so the run throws and sets neither
    speed option; it throws the [RepoDownloadError] as soon as the engine
    took the user agent. *)
Theorem negative_throttle_rejected config :
  (exists m e, throttle config = S754_finite true m e)
  \/ throttle config = S754_infinity true ->
  0 <= minrate config ->
  maxspeed_below_minrate config = true
  /\ forall engine h,
       init_remote engine config h
       = if engine h LRO_USERAGENT (LrString (user_agent config))
         then (h ++ [(LRO_USERAGENT, LrString (user_agent config))],
               Threw (RepoDownloadError speed_message))
         else (h, Threw LibrepoError).
Proof.
  intros Ht Hm.
  assert (C : maxspeed_below_minrate config = true).
  { unfold maxspeed_below_minrate.
    pose proof (float_of_int_sign (minrate config) Hm) as S.
    destruct Ht as [(m & e & Et)|Et];
      (rewrite maxspeed_verbatim by (rewrite Et; reflexivity));
      rewrite Et;
      destruct (float_of_int (minrate config)) as [s|s| |s m' e'];
      try contradiction; subst s; reflexivity. }
  split; [exact C|]. intros engine h. now apply init_remote_rejected.
Qed.

(** X21. A [throttle] that is not a number, or is +infinity, is taken as
    [maxspeed] and slips through the speed check, which only refuses what
    compares below [minrate]: whatever the engine answers, no run with
    such a throttle throws [RepoDownloadError].  What reaches the
    conversion to [int64_t] of librepo.cpp:128 is then a value for which
    C++ does not define the conversion. *)
Theorem unordered_throttle config :
  throttle config = S754_nan \/ throttle config = S754_infinity false ->
  maxspeed config = throttle config
  /\ maxspeed_below_minrate config = false
  /\ int64_of_float (maxspeed config) = None
  /\ forall engine h msg,
       snd (init_remote engine config h) <> Threw (RepoDownloadError msg).
Proof.
  intros Ht.
  assert (M : maxspeed config = throttle config).
  { unfold maxspeed. destruct Ht as [-> | ->]; reflexivity. }
  assert (C : maxspeed_below_minrate config = false).
  { unfold maxspeed_below_minrate. rewrite M.
    destruct Ht as [-> | ->]; [reflexivity|].
    now destruct (float_of_int (minrate config)) as [s|[]| |s m e]. }
  assert (N : int64_of_float (maxspeed config) = None).
  { rewrite M. destruct Ht as [-> | ->]; reflexivity. }
  split; [exact M|]. split; [exact C|]. split; [exact N|].
  intros engine h msg R.
  destruct (init_remote_shape engine config h)
    as (speed & done & rest & _ & _ & Hs).
  rewrite R in Hs.
  destruct Hs as [(_ & E & _)|[[E _]|[(_ & _ & E)|[E _]]]];
    try discriminate E. rewrite C in E. discriminate E.
Qed.

(** X22. A fractional [throttle], in (0, 1], of a [bandwidth] of 0 gives
    [maxspeed] 0: the speed check passes whatever [minrate] is, and the
    max-speed option is set to 0, which lifts the limit. *)
Theorem fraction_of_no_bandwidth config :
  fgt (throttle config) (float_of_int 0) = true ->
  fle (throttle config) (float_of_int 1) = true ->
  bandwidth config = 0 ->
  maxspeed config = S754_zero false
  /\ maxspeed_below_minrate config = false
  /\ forall h,
       snd (init_remote accepting config h) = Returned tt
       /\ get_opt LRO_MAXSPEED (fst (init_remote accepting config h))
          = Some (LrInt64 0).
Proof.
  intros Hgt Hle Hbw.
  assert (M : maxspeed config = S754_zero false).
  { unfold maxspeed. rewrite Hgt, Hle, Hbw. cbn [andb].
    destruct (throttle config) as [s|s| |s m e].
    - destruct s; discriminate Hgt.
    - destruct s; [discriminate Hgt | discriminate Hle].
    - discriminate Hgt.
    - destruct s; [discriminate Hgt | reflexivity]. }
  assert (C : maxspeed_below_minrate config = false)
    by (unfold maxspeed_below_minrate; rewrite M; reflexivity).
  split; [exact M|]. split; [exact C|]. intros h.
  rewrite init_remote_accepting, C, M.
  change (int64_of_float (S754_zero false)) with (Some 0).
  cbn [fst snd]. split; [reflexivity|].
  apply (get_opt_settings _ _ (settings LRO_MAXSPEED h)).
  now rewrite settings_app, settings_MAXSPEED.
Qed.

Lemma digits2_pos_bound m : Zpos m < 2 ^ Zpos (digits2_pos m).
Proof.
  induction m as [m IH|m IH|]; cbn [digits2_pos].
  - rewrite Pos2Z.inj_succ, Z.pow_succ_r, Pos2Z.inj_xI by lia. lia.
  - rewrite Pos2Z.inj_succ, Z.pow_succ_r, Pos2Z.inj_xO by lia. lia.
  - reflexivity.
Qed.

(** A well-formed positive number below 1 has integer part 0. *)
Lemma below_one_trunc m e :
  valid_binary 24 128 (S754_finite false m e) = true ->
  flt (S754_finite false m e) (float_of_int 1) = true ->
  ftrunc (S754_finite false m e) = Some 0.
Proof.
  intros V L.
  assert (B : Zpos m < 16777216).
  { assert (D : Zpos (digits2_pos m) <= 24).
    { unfold valid_binary, bounded, canonical_mantissa, fexp, emin in V.
      apply andb_prop in V. destruct V as [V _]. apply Z.eqb_eq in V. lia. }
    pose proof (digits2_pos_bound m) as P.
    pose proof (Z.pow_le_mono_r 2 (Zpos (digits2_pos m)) 24) as Q.
    change (2 ^ 24) with 16777216 in Q. lia. }
  clear V.
  assert (C : e < -23 \/ (e = -23 /\ Zpos m < 8388608)).
  { change (float_of_int 1) with (S754_finite false 8388608 (-23)) in L.
    unfold flt, SFltb, SFcompare in L.
    destruct (Z.compare_spec e (-23)) as [He|Hlt|Hgt];
      [right | now left | discriminate L].
    rewrite Pos.compare_cont_spec in L. cbn [Pos.switch_Eq] in L.
    destruct (Pos.compare_spec m 8388608) as [|Hl|];
      try discriminate L. split; [exact He | exact Hl]. }
  clear L.
  cbn [ftrunc cond_Zopp]. f_equal.
  assert (N : e <= 0) by (destruct C as [C|[C _]]; rewrite ?C; lia).
  rewrite (Z.shiftl_div_pow2 (Zpos m) e N).
  apply Z.div_small.
  destruct C as [C|[-> C]].
  - pose proof (Z.pow_le_mono_r 2 24 (- e)) as Q.
    change (2 ^ 24) with 16777216 in Q. lia.
  - change (2 ^ (- -23)) with 8388608. lia.
Qed.

(** X23. When [maxspeed] comes out positive but below one byte per second
    (a well-formed [float]), a run that returns has set the max-speed
    option to 0: the conversion drops the fraction, and 0 lifts the limit
    instead of imposing the small one. *)
Theorem fraction_of_a_byte engine config h h' :
  valid_binary 24 128 (maxspeed config) = true ->
  fgt (maxspeed config) (float_of_int 0) = true ->
  flt (maxspeed config) (float_of_int 1) = true ->
  init_remote engine config h = (h', Returned tt) ->
  get_opt LRO_MAXSPEED h' = Some (LrInt64 0).
Proof.
  intros V Hgt Hlt H.
  apply init_remote_Returned in H. destruct H as (_ & speed & Hs & ->).
  assert (T : ftrunc (maxspeed config) = Some 0).
  { destruct (maxspeed config) as [s|s| |s m e].
    - destruct s; discriminate Hgt.
    - destruct s; [discriminate Hgt | discriminate Hlt].
    - discriminate Hgt.
    - destruct s; [discriminate Hgt|]. now apply below_one_trunc. }
  unfold int64_of_float in Hs. rewrite T in Hs.
  change (Some 0 = Some speed) in Hs. inversion Hs; subst speed.
  apply (get_opt_settings _ _ (settings LRO_MAXSPEED h)).
  now rewrite settings_app, settings_MAXSPEED.
Qed.

End Speeds.

End Locale.

(** * The samples, run in the "C" locale *)

Local Open Scope list_scope.

(** The escape of a letter beyond ASCII that ISO-8859-1 has and "C" has
    not: in ISO-8859-1 [url_encode] hands the byte 0xE9 back, where its
    comment has "%e9". *)
Lemma url_encode_locale_letter_witness :
  url_encode latin1 (String e_acute "") = String e_acute ""
  /\ String.length (url_encode latin1 (String e_acute "")) = 1%nat
  /\ emit e_acute = "%e9"
  /\ url_encode C_locale (String e_acute "") = "%e9".
Proof.
  destruct (url_encode_locale_letter latin1 e_acute eq_refl eq_refl)
    as (_ & E & _ & L & _).
  split; [exact E|]. split; [exact L|]. split; reflexivity.
Defined.

Lemma url_encode_documented_witness :
  url_encode C_locale "a b/c~" = "a%20b%2fc~"
  /\ String.length (url_encode C_locale "a b/c~") = 10%nat
  /\ url_encode C_locale "a-b.c_d~" = "a-b.c_d~".
Proof.
  destruct (url_encode_documented C_locale (fun _ => eq_refl) "a b/c~")
    as (E & L & _).
  split; [exact E|]. split; [exact L|].
  exact (proj2 (proj2
           (url_encode_documented C_locale (fun _ => eq_refl) "a-b.c_d~"))
           eq_refl).
Defined.

(** C1 as stated fails twice.  In single precision [minrate = 16777217]
    rounds to 16777216: a [maxspeed] of 16777216 is non-zero and below
    [minrate], yet the comparison of librepo.cpp:121 is between equals,
    the run returns and both options are written.  And where the engine
    refuses the user-agent option of librepo.cpp:114, what is thrown is
    the engine's error, before the check is reached. *)
Lemma speed_check_not_exact :
  maxspeed rounding_config = S754_finite false 8388608 1
  /\ fne (maxspeed rounding_config) (float_of_int 0) = true
  /\ ftrunc (maxspeed rounding_config) = Some 16777216
  /\ 16777216 < minrate rounding_config
  /\ float_of_int (minrate rounding_config) = maxspeed rounding_config
  /\ snd (init_remote C_locale accepting rounding_config []) = Returned tt
  /\ get_opt LRO_LOWSPEEDLIMIT
       (fst (init_remote C_locale accepting rounding_config []))
     = Some (LrInt64 16777217)
  /\ get_opt LRO_MAXSPEED
       (fst (init_remote C_locale accepting rounding_config []))
     = Some (LrInt64 16777216)
  /\ fne (maxspeed slow_config) (float_of_int 0) = true
  /\ flt (maxspeed slow_config) (float_of_int (minrate slow_config)) = true
  /\ init_remote C_locale refusing slow_config []
     = ([], Threw LibrepoError).
Proof. repeat split; reflexivity. Qed.

Lemma url_encode_injective_witness :
  url_encode C_locale "a b/c" = url_encode C_locale "a b/c" /\ "a b/c" = "a b/c".
Proof.
  split; [reflexivity|].
  apply (url_encode_injective C_locale "a b/c" "a b/c"). reflexivity.
Defined.

Lemma init_remote_speed_check_witness :
  init_remote C_locale accepting slow_config []
  = ([(LRO_USERAGENT, LrString "libdnf")],
     Threw (RepoDownloadError speed_message))
  /\ settings LRO_LOWSPEEDLIMIT (fst (init_remote C_locale accepting slow_config []))
     = []
  /\ settings LRO_MAXSPEED (fst (init_remote C_locale accepting slow_config [])) = [].
Proof.
  destruct (init_remote_speed_check C_locale accepting slow_config []
              eq_refl eq_refl) as (_ & Hthrow & _ & Hlow & Hmax).
  split; [exact (Hthrow eq_refl)|]. split; assumption.
Defined.

Lemma init_remote_not_atomic_witness :
  init_remote C_locale accepting slow_config []
  = ([(LRO_USERAGENT, LrString "libdnf")],
     Threw (RepoDownloadError speed_message))
  /\ get_opt LRO_USERAGENT [(LRO_USERAGENT, LrString "libdnf")]
     = Some (LrString "libdnf").
Proof.
  split; [reflexivity|].
  exact (proj1 (proj2 (proj2
           (init_remote_not_atomic C_locale accepting slow_config []
              [(LRO_USERAGENT, LrString "libdnf")] speed_message
              eq_refl)))).
Defined.

(** C2 as stated fails: the sample with [minrate = 1000], [throttle = 0.5]
    and [bandwidth = 500] has [maxspeed = 250], yet the run ends in the
    speed check and the max-speed option receives nothing; and where
    [maxspeed] is 1.5 the option receives 1. *)
Lemma maxspeed_not_always_set :
  int64_of_float (maxspeed slow_config) = Some 250
  /\ init_remote C_locale accepting slow_config []
     = ([(LRO_USERAGENT, LrString "libdnf")],
        Threw (RepoDownloadError speed_message))
  /\ get_opt LRO_MAXSPEED (fst (init_remote C_locale accepting slow_config [])) = None
  /\ maxspeed fractional_config = S754_finite false 12582912 (-23)
  /\ get_opt LRO_MAXSPEED (fst (init_remote C_locale accepting fractional_config []))
     = Some (LrInt64 1).
Proof. repeat split; reflexivity. Qed.

Lemma init_remote_maxspeed_witness :
  get_opt LRO_MAXSPEED (fst (init_remote C_locale accepting good_config []))
  = Some (LrInt64 250)
  /\ get_opt LRO_MAXSPEED (fst (init_remote C_locale accepting unthrottled_config []))
     = Some (LrInt64 0).
Proof.
  split.
  - destruct (proj1 (proj2 (init_remote_maxspeed C_locale good_config []))
                accepting (fst (init_remote C_locale accepting good_config []))
                eq_refl) as (speed & Hs & _ & _ & Hget).
    rewrite Hget. f_equal. f_equal.
    assert (E : Some speed = Some 250) by (rewrite <- Hs; reflexivity).
    now inversion E.
  - exact (proj2 (proj2 (proj2 (proj2
             (init_remote_maxspeed C_locale unthrottled_config [])) eq_refl))).
Defined.

Lemma init_remote_credentials_witness :
  settings LRO_USERPWD (fst (init_remote C_locale accepting good_config []))
  = [LrString "alice:p@ss"]
  /\ settings LRO_PROXYUSERPWD (fst (init_remote C_locale accepting good_config []))
     = [LrString "bob:x%3ay"].
Proof.
  exact (proj2 (proj2 (init_remote_credentials C_locale accepting good_config []))
           eq_refl).
Defined.

(** C5 as stated fails: the sample below the speed limit never reaches
    librepo.cpp:176, and the proxy-auth-methods option receives nothing. *)
Lemma proxy_auth_not_always_set :
  init_remote C_locale accepting slow_config []
  = ([(LRO_USERAGENT, LrString "libdnf")],
     Threw (RepoDownloadError speed_message))
  /\ settings LRO_PROXYAUTHMETHODS (fst (init_remote C_locale accepting slow_config []))
     = []
  /\ get_opt LRO_PROXYAUTHMETHODS (fst (init_remote C_locale accepting slow_config []))
     = None.
Proof. repeat split; reflexivity. Qed.

Lemma init_remote_proxy_auth_witness :
  init_remote C_locale accepting good_config []
  = (options_of C_locale good_config 250, Returned tt)
  /\ get_opt LRO_PROXYAUTHMETHODS (options_of C_locale good_config 250)
     = Some (LrAuthLong LR_AUTH_ANY).
Proof.
  split; [reflexivity|].
  destruct (init_remote_proxy_auth C_locale accepting good_config []
              (options_of C_locale good_config 250) eq_refl)
    as (method & _ & Hget & _ & Hany).
  rewrite Hget. f_equal. f_equal. apply Hany.
  intros m. destruct m; discriminate.
Defined.

(** C6 as stated fails: the sample below the speed limit has
    [ip_resolve = "ipv4"], and the IP-resolve option receives nothing. *)
Lemma ip_resolve_not_always_set :
  ip_resolve slow_config = "ipv4"
  /\ init_remote C_locale accepting slow_config []
     = ([(LRO_USERAGENT, LrString "libdnf")],
        Threw (RepoDownloadError speed_message))
  /\ settings LRO_IPRESOLVE (fst (init_remote C_locale accepting slow_config [])) = [].
Proof. repeat split; reflexivity. Qed.

Lemma init_remote_ip_resolve_witness :
  settings LRO_IPRESOLVE (fst (init_remote C_locale accepting good_config []))
  = [LrIpResolve LR_IPRESOLVE_V4]
  /\ settings LRO_IPRESOLVE (fst (init_remote C_locale accepting fractional_config []))
     = [LrIpResolve LR_IPRESOLVE_V6]
  /\ settings LRO_IPRESOLVE
       (fst (init_remote C_locale accepting unthrottled_config [])) = [].
Proof.
  split; [|split].
  - exact (proj1 (proj2 (proj2
             (init_remote_ip_resolve C_locale accepting good_config [])) eq_refl)
             eq_refl).
  - exact (proj2 (proj2 (proj2
             (init_remote_ip_resolve C_locale accepting fractional_config []))
             eq_refl) eq_refl).
  - apply (proj1 (proj2
             (init_remote_ip_resolve C_locale accepting unthrottled_config [])));
      discriminate.
Defined.

Lemma format_user_pass_string_encoded_injective_witness :
  format_user_pass_string C_locale "a:b" "c" true
  = format_user_pass_string C_locale "a:b" "c" true
  /\ "a:b" = "a:b" /\ "c" = "c".
Proof.
  split; [reflexivity|].
  apply (format_user_pass_string_encoded_injective C_locale "a:b" "c" "a:b" "c").
  reflexivity.
Defined.

Lemma init_remote_LibrepoError_witness :
  snd (init_remote C_locale no_proxy_engine good_config []) = Threw LibrepoError
  /\ exists speed done opt value rest,
       options_of C_locale good_config speed = done ++ (opt, value) :: rest
       /\ fst (init_remote C_locale no_proxy_engine good_config []) = [] ++ done
       /\ no_proxy_engine ([] ++ done) opt value = false.
Proof.
  split; [reflexivity|].
  exact (init_remote_LibrepoError C_locale no_proxy_engine good_config [] eq_refl).
Defined.

Lemma init_remote_limits_witness :
  settings LRO_LOWSPEEDLIMIT (options_of C_locale good_config 250) = [LrInt64 100]
  /\ settings LRO_CONNECTTIMEOUT (options_of C_locale good_config 250) = [LrLong 30]
  /\ settings LRO_LOWSPEEDTIME (options_of C_locale good_config 250) = [LrLong 30].
Proof.
  apply (init_remote_limits C_locale accepting good_config []
           (options_of C_locale good_config 250)); [cbn; lia | cbn; lia | reflexivity].
Defined.

Lemma init_remote_verification_witness :
  get_opt LRO_SSLVERIFYHOST (options_of C_locale good_config 250) = Some (LrLong 1)
  /\ get_opt LRO_PROXY_SSLVERIFYHOST (options_of C_locale good_config 250)
     = Some (LrLong 0).
Proof.
  destruct (init_remote_verification C_locale accepting good_config []
              (options_of C_locale good_config 250) eq_refl) as (A & _ & B & _).
  split; assumption.
Defined.

Lemma init_remote_paths_witness :
  settings LRO_PROXY (options_of C_locale good_config 250)
  = [LrString "http://proxy:3128"]
  /\ settings LRO_SSLCACERT (options_of C_locale good_config 250) = [].
Proof.
  destruct (init_remote_paths C_locale accepting good_config []
              (options_of C_locale good_config 250) eq_refl)
    as (_ & A & _ & _ & B & _).
  split; assumption.
Defined.

Lemma negative_throttle_rejected_witness :
  init_remote C_locale accepting
    (with_throttle (S754_finite true 8388608 (-23)) 500 good_config) []
  = ([(LRO_USERAGENT, LrString "libdnf")],
     Threw (RepoDownloadError speed_message)).
Proof.
  refine (proj2 (negative_throttle_rejected C_locale
                   (with_throttle (S754_finite true 8388608 (-23)) 500
                      good_config) _ _) accepting []).
  - left. exists 8388608%positive, (-23). reflexivity.
  - cbn. lia.
Defined.

Lemma unordered_throttle_witness :
  maxspeed_below_minrate
    (with_throttle (S754_infinity false) 500 slow_config) = false
  /\ int64_of_float
       (maxspeed (with_throttle (S754_infinity false) 500 slow_config))
     = None
  /\ snd (init_remote C_locale accepting
            (with_throttle (S754_infinity false) 500 slow_config) [])
     <> Threw (RepoDownloadError speed_message).
Proof.
  pose proof (unordered_throttle C_locale
                (with_throttle (S754_infinity false) 500 slow_config)
                (or_intror eq_refl)) as (_ & C & N & W).
  split; [exact C|]. split; [exact N|]. exact (W accepting [] speed_message).
Defined.

Lemma fraction_of_no_bandwidth_witness :
  get_opt LRO_MAXSPEED
    (fst (init_remote C_locale accepting (with_throttle half 0 slow_config) []))
  = Some (LrInt64 0).
Proof.
  exact (proj2 (proj2 (proj2
           (fraction_of_no_bandwidth C_locale (with_throttle half 0 slow_config)
              eq_refl eq_refl eq_refl)) [])).
Defined.

Lemma fraction_of_a_byte_witness :
  maxspeed (with_throttle half 1 fractional_config)
  = S754_finite false 8388608 (-24)
  /\ get_opt LRO_MAXSPEED
       (fst (init_remote C_locale accepting
               (with_throttle half 1 fractional_config) []))
     = Some (LrInt64 0).
Proof.
  split; [reflexivity|].
  exact (fraction_of_a_byte C_locale accepting
           (with_throttle half 1 fractional_config) []
           (fst (init_remote C_locale accepting
                   (with_throttle half 1 fractional_config) []))
           eq_refl eq_refl eq_refl eq_refl).
Defined.
